(** * AgeEstimation: the training script [main.py], embedded and verified

    The script trains a ResNet-34 age classifier with a mean-variance loss on
    top of cross-entropy, under a leave-one-subject-out split.  Tensor entries
    and the losses computed from them are idealised as real numbers, without
    rounding error; the two best-metric trackers of [main] take their
    metrics as Python floats, which may be infinite or NaN.  The libraries
    the script calls (torch, numpy, os) appear through the part of their
    documented behaviour the script relies on. *)

From Stdlib Require Import Reals Lra Lia ZArith List String Ascii Bool Arith.
From Stdlib Require Import Permutation.
Import ListNotations.

Set Implicit Arguments.

(** ** Python results: a value or a raised exception *)

Module Py.

Inductive exn : Type :=
| TypeError
| ValueError
| ZeroDivisionError.

Inductive result (A : Type) : Type :=
| Ok (a : A)
| Raise (e : exn).

Arguments Ok {A} a.
Arguments Raise {A} e.

Definition rbind {A B : Type} (r : result A) (k : A -> result B) : result B :=
  match r with
  | Ok a => k a
  | Raise e => Raise e
  end.

(** [x / n] where [n] is a Python int: a float numerator raises on [n = 0]. *)
Definition true_div (x : R) (n : nat) : result R :=
  match n with
  | O => Raise ZeroDivisionError
  | S _ => Ok (x / INR n)%R
  end.

(** [math.floor] on a real, from the standard library's [up]. *)
Definition floor (x : R) : Z := (up x - 1)%Z.

(** [int(x)] for a float [x]: truncation towards zero. *)
Definition int_of_float (x : R) : Z :=
  if Rle_dec 0 x then floor x else (- floor (- x))%Z.

(** [np.around]: round to the nearest integer, halves to the even one. *)
Definition np_around (x : R) : R :=
  let f := floor x in
  let d := (x - IZR f)%R in
  if Rlt_dec d (1 / 2) then IZR f
  else if Rlt_dec (1 / 2) d then IZR (f + 1)
  else if Z.even f then IZR f else IZR (f + 1).

(** *** [int(s)] on an ASCII string

    Surrounding whitespace is stripped, one sign is allowed, and the digits
    may be grouped by single underscores.  Anything else is a [ValueError]. *)

Definition is_space (c : ascii) : bool :=
  let n := nat_of_ascii c in
  ((9 <=? n) && (n <=? 13)) || ((28 <=? n) && (n <=? 32)).

Definition digit_of (c : ascii) : option Z :=
  let n := nat_of_ascii c in
  if (48 <=? n) && (n <=? 57) then Some (Z.of_nat (n - 48)) else None.

Fixpoint lstrip (s : list ascii) : list ascii :=
  match s with
  | c :: s' => if is_space c then lstrip s' else s
  | [] => []
  end.

Definition strip (s : list ascii) : list ascii :=
  rev (lstrip (rev (lstrip s))).

(** Digits after the first one; [after_digit] tells whether the previous
    character was a digit (an underscore must sit between two digits). *)
Fixpoint digits_tail (acc : Z) (after_digit : bool) (s : list ascii) : option Z :=
  match s with
  | [] => if after_digit then Some acc else None
  | c :: s' =>
      match digit_of c with
      | Some d => digits_tail (10 * acc + d) true s'
      | None =>
          if (nat_of_ascii c =? 95) && after_digit
          then digits_tail acc false s'
          else None
      end
  end.

Definition digits (s : list ascii) : option Z :=
  match s with
  | [] => None
  | c :: s' =>
      match digit_of c with
      | Some d => digits_tail d true s'
      | None => None
      end
  end.

Definition int_of_string (s : string) : result Z :=
  let body := strip (list_ascii_of_string s) in
  let signed :=
    match body with
    | c :: s' =>
        if nat_of_ascii c =? 45 then option_map Z.opp (digits s')
        else if nat_of_ascii c =? 43 then digits s'
        else digits body
    | [] => None
    end in
  match signed with
  | Some z => Ok z
  | None => Raise ValueError
  end.

(** [os.path.join(a, b)] on POSIX paths. *)
Definition ends_with_sep (a : string) : bool :=
  match rev (list_ascii_of_string a) with
  | c :: _ => nat_of_ascii c =? 47
  | [] => false
  end.

Definition starts_with_sep (b : string) : bool :=
  match b with
  | String c _ => nat_of_ascii c =? 47
  | EmptyString => false
  end.

Definition path_join (a b : string) : string :=
  if starts_with_sep b then b
  else if (String.length a =? 0) || ends_with_sep a then (a ++ b)%string
  else (a ++ "/" ++ b)%string.

End Py.

Import Py.

(** ** Module-level constants of [main.py] *)

Definition LAMBDA_1 : R := (2 / 10)%R.
Definition LAMBDA_2 : R := (5 / 100)%R.
Definition START_AGE : Z := 0.
Definition END_AGE : Z := 69.
Definition VALIDATION_RATE : R := (1 / 10)%R.

(** ** Tensors and the two criteria *)

Definition Tensor1 : Type := list R.
Definition Tensor2 : Type := list (list R).

Definition rsum (l : list R) : R := fold_right Rplus 0%R l.

(** [t.mean()] of a one-dimensional tensor. *)
Definition rmean (l : list R) : R := (rsum l / INR (List.length l))%R.

(** [torch.arange(start, stop)] as floats. *)
Definition arange (start stop : Z) : Tensor1 :=
  map (fun i => IZR (start + Z.of_nat i)) (seq 0 (Z.to_nat (stop - start))).

Fixpoint map2 {A B C : Type} (f : A -> B -> C) (l : list A) (l' : list B) : list C :=
  match l, l' with
  | x :: t, y :: t' => f x y :: map2 f t t'
  | _, _ => []
  end.

(** [(p * a).sum()] for one row. *)
Definition dot (p a : Tensor1) : R := rsum (map2 Rmult p a).

(** [nn.Softmax(dim=1)]. *)
Definition softmax_row (row : Tensor1) : Tensor1 :=
  map (fun x => (exp x / rsum (map exp row))%R) row.

Definition Softmax (input : Tensor2) : Tensor2 := map softmax_row input.

(** [torch.nn.CrossEntropyLoss()], mean reduction: the batch average of the
    negated log-softmax of each row at its target index.  A target outside
    the row is a contract violation of the data set; it reads the score 0. *)
Definition nll_row (row : Tensor1) (target : Z) : R :=
  (- ln (exp (nth (Z.to_nat target) row 0) / rsum (map exp row)))%R.

Definition CrossEntropyLoss (input : Tensor2) (target : list Z) : R :=
  rmean (map2 nll_row input target).

(** Modelled from the spec: the class [MeanVarianceLoss] of
    [mean_variance_loss.py], which is imported by [main.py] but is not among
    the sources.  The spec (section 4.1) gives its two outputs: with the
    age vector [a = [start_age .. end_age]] and each row of scores read as a
    distribution [p], [mu = sum p_k a_k] and [var = sum p_k (a_k - mu)^2];
    [mean_loss] is the batch average of [(mu - label)^2 / 2] scaled by
    [lambda_1], [variance_loss] the batch average of [var] scaled by
    [lambda_2].  The constructor takes the weights in the order of their
    names, then the two age bounds. *)
Record MeanVarianceLoss : Type := {
  lambda_1 : R;
  lambda_2 : R;
  start_age : Z;
  end_age : Z
}.

Definition ages (c : MeanVarianceLoss) : Tensor1 :=
  arange (start_age c) (end_age c + 1).

Definition expected_age (a p : Tensor1) : R := dot p a.

Definition age_variance (a p : Tensor1) : R :=
  let mu := expected_age a p in
  rsum (map2 (fun pk ak => pk * (ak - mu) ^ 2)%R p a).

Definition mean_term (a : Tensor1) (input : Tensor2) (target : list Z) : R :=
  rmean (map2 (fun p y => (expected_age a p - IZR y) ^ 2 / 2)%R input target).

Definition variance_term (a : Tensor1) (input : Tensor2) : R :=
  rmean (map (age_variance a) input).

Definition mvl_forward (c : MeanVarianceLoss) (input : Tensor2) (target : list Z)
  : R * R :=
  let a := ages c in
  (lambda_1 c * mean_term a input target, lambda_2 c * variance_term a input)%R.

(** Line 207 of [main]: [MeanVarianceLoss(LAMBDA_2, LAMBDA_1, START_AGE, END_AGE)]. *)
Definition main_criterion1 : MeanVarianceLoss :=
  Build_MeanVarianceLoss LAMBDA_2 LAMBDA_1 START_AGE END_AGE.

(** Line 208 of [main]. *)
Definition main_criterion2 : Tensor2 -> list Z -> R := CrossEntropyLoss.

(** The loss terms of one training batch (lines 54-56 of [train]): both
    criteria read the raw output of the model. *)
Record Losses : Type := {
  mean_loss : R;
  variance_loss : R;
  softmax_loss : R;
  loss : R
}.

Definition train_losses (criterion1 : MeanVarianceLoss)
    (criterion2 : Tensor2 -> list Z -> R) (output : Tensor2) (labels : list Z)
  : Losses :=
  let '(mean_loss, variance_loss) := mvl_forward criterion1 output labels in
  let softmax_loss := criterion2 output labels in
  {| mean_loss := mean_loss;
     variance_loss := variance_loss;
     softmax_loss := softmax_loss;
     loss := mean_loss + variance_loss + softmax_loss |}.

(** The loss terms of one evaluation batch (lines 95-99 of [evaluate]): the
    output is replaced by its softmax before either criterion reads it. *)
Definition evaluate_losses (criterion1 : MeanVarianceLoss)
    (criterion2 : Tensor2 -> list Z -> R) (output : Tensor2) (label : list Z)
  : Losses :=
  let output := Softmax output in
  let '(mean_loss, variance_loss) := mvl_forward criterion1 output label in
  let softmax_loss := criterion2 output label in
  {| mean_loss := mean_loss;
     variance_loss := variance_loss;
     softmax_loss := softmax_loss;
     loss := mean_loss + variance_loss + softmax_loss |}.


Definition two_point : Tensor2 := [(1 / 2)%R :: 0%R :: (1 / 2)%R :: repeat 0%R 67].

(** ** The best-metric trackers ([np.inf] and the two comparisons of [main])

    A metric reaches the comparisons of lines 237 and 241 as a Python
    float: [np.inf], a number, [-np.inf] or NaN. *)

Inductive ExtR : Type :=
| PInf
| Fin (x : R)
| NInf
| NaN.

(** [best > x] on floats: false as soon as one side is NaN, and nothing is
    above [np.inf] or below [-np.inf]. *)
Definition ext_gt (best x : ExtR) : bool :=
  match best, x with
  | NaN, _ => false
  | _, NaN => false
  | NInf, _ => false
  | _, PInf => false
  | PInf, _ => true
  | Fin _, NInf => true
  | Fin b, Fin y => if Rlt_dec y b then true else false
  end.

Record Best : Type := {
  best_val_mae : ExtR;
  best_val_loss : ExtR;
  best_mae_epoch : Z;
  best_loss_epoch : Z
}.

(** Lines 218-221 of [main]. *)
Definition best_init : Best :=
  {| best_val_mae := PInf;
     best_val_loss := PInf;
     best_mae_epoch := -1;
     best_loss_epoch := -1 |}.

(** ** What the script does to the outside world

    The calls that [main.py] itself makes: [os.mkdir], [print], [f.write]
    on a file opened for appending, and [torch.save]. *)

Inductive LogMsg : Type :=
| TrainLine (epoch : Z) (i : nat) (mean_loss variance_loss softmax_loss loss : R)
| EpochLine (epoch : Z) (mean_loss variance_loss softmax_loss loss mae : R)
| TestLine (epoch : Z) (mae_test : R)
| BestLine (best_loss_epoch : Z) (best_val_loss : ExtR)
           (best_mae_epoch : Z) (best_val_mae : ExtR).

Inductive Event (Snapshot : Type) : Type :=
| Mkdir (path : string)
| Print (m : LogMsg)
| Append (path : string) (m : LogMsg)
| Save (path : string) (state_dict : Snapshot).

Arguments Mkdir {Snapshot} path.
Arguments Print {Snapshot} m.
Arguments Append {Snapshot} path m.
Arguments Save {Snapshot} path state_dict.

(** The content of a checkpoint file after a run: the last [torch.save] to it. *)
Fixpoint last_saved {Snapshot : Type} (path : string) (es : list (Event Snapshot))
  : option Snapshot :=
  match es with
  | [] => None
  | e :: es' =>
      match last_saved path es' with
      | Some s => Some s
      | None =>
          match e with
          | Save p s => if String.eqb p path then Some s else None
          | _ => None
          end
      end
  end.

(** Command-line arguments as [get_args] returns them, for a command line
    that gives [--image_directory], [--leave_subject], [--learning_rate] and
    [--epoch]: [argparse] leaves each of these four at [None] when it is
    omitted, and a command line that omits one is not an [Args].  The flags
    [--resume] and [--result_directory] are optional here as well. *)
Record Args : Type := {
  batch_size : Z;
  image_directory : string;
  leave_subject : Z;
  learning_rate : R;
  epoch : Z;
  resume : option string;
  result_directory : option string
}.

Inductive Transform : Type :=
| transforms_train
| transforms.

(** A batch as a [DataLoader] yields it: [sample['image']], [sample['label']]. *)
Record Batch (Image : Type) : Type := {
  images : list Image;
  labels : list Z
}.

(** ** A small instance of the collaborators

    Used to run the script on concrete inputs: a shuffling loader that
    yields its whole data set as one batch, the other loaders one batch per
    file, a network that scores every class 0, a generator that hands out
    the first positions. *)
Module Toy.

Definition RandomState : Type := nat.

Definition draw (g : RandomState) (a k : nat) : list nat * RandomState :=
  (seq 0 k, S g).

Definition Image : Type := string.
Definition Model : Type := nat.
Definition Optimizer : Type := nat.
Definition Dataset : Type := list string.

Definition model_call (training : bool) (m : Model) (imgs : list Image) : Tensor2 :=
  map (fun _ => repeat 0%R 70) imgs.

Definition parameters : list string :=
  ["conv1.weight"; "layer4.2.bn2.bias"; "fc.0.weight"; "fc.2.weight"; "fc.2.bias"]%string.

Definition fc_parameters : list string :=
  ["fc.0.weight"; "fc.2.weight"; "fc.2.bias"]%string.

Definition ResNet34 (num_classes : Z) : Model := 0%nat.
Definition SGD (m : Model) (lr : R) : Optimizer := 0%nat.
Definition scheduler_step (o : Optimizer) (epoch : Z) : Optimizer := o.

Definition backward_step (flags : string -> bool) (o : Optimizer) (m : Model)
    (imgs : list Image) (objective : Tensor2 -> R) : Model * Optimizer :=
  (S m, S o).

Definition FaceDataset (files : list string) (t : Transform) : Dataset := files.

Definition DataLoader (d : Dataset) (batch_size : Z) (shuffle : bool) (pass : nat)
  : list (Batch Image) :=
  if shuffle then
    match d with
    | [] => []
    | _ :: _ => [{| images := d; labels := map (fun _ => 30%Z) d |}]
    end
  else map (fun fp => {| images := [fp]; labels := [30%Z] |}) d.

(** An image directory of three subjects: one file of subject 1, nine of
    subject 3, one of subject 2. *)
Definition faces : list string :=
  ["001_a.jpg"; "003_0.jpg"; "003_1.jpg"; "003_2.jpg"; "003_3.jpg";
   "003_4.jpg"; "003_5.jpg"; "003_6.jpg"; "003_7.jpg"; "003_8.jpg";
   "002_a.jpg"]%string.

Definition os_listdir (dir : string) : list string := faces.
Definition os_path_exists (path : string) : bool := false.

(** The same directory with a file that is not an image of a subject. *)
Definition os_listdir_stray (dir : string) : list string :=
  ["001_a.jpg"; "Thumbs.db"]%string.

(** Three command lines: a fresh run, the same run with [--resume], and a
    run without [--result_directory]. *)
Definition args : Args :=
  {| batch_size := 16;
     image_directory := "faces";
     leave_subject := 1;
     learning_rate := (1 / 1000)%R;
     epoch := 11;
     resume := None;
     result_directory := Some "out"%string |}.

Definition args_resumed : Args :=
  {| batch_size := 16;
     image_directory := "faces";
     leave_subject := 1;
     learning_rate := (1 / 1000)%R;
     epoch := 11;
     resume := Some "out/model_best_mae"%string;
     result_directory := Some "out"%string |}.

Definition args_no_result_directory : Args :=
  {| batch_size := 16;
     image_directory := "faces";
     leave_subject := 1;
     learning_rate := (1 / 1000)%R;
     epoch := 11;
     resume := None;
     result_directory := None |}.




End Toy.

Section Script.

(** *** Collaborators *)

(** [np.random]: the generator state, seeded once at import (lines 26-28),
    and the draw behind [np.random.choice(a, size, replace=False)]. *)
Variable RandomState : Type.
Variable draw : RandomState -> nat -> nat -> list nat * RandomState.

(** The file system as the script reads it. *)
Variable os_listdir : string -> list string.
Variable os_path_exists : string -> bool.

(** The network, its optimizer and the data pipeline. *)
Variable Image : Type.
Variable Model : Type.
Variable Optimizer : Type.

(** [model(images)], in training mode ([true]) or evaluation mode: the
    scores of the network on a batch that it accepts.  The batch that it
    refuses is the matter of [batch_norm_check] below. *)
Variable model_call : bool -> Model -> list Image -> Tensor2.
(** [model.parameters()] and [model.fc.parameters()], by parameter name:
    the names are fixed by the architecture, whatever the weights. *)
Variable parameters : list string.
Variable fc_parameters : list string.
(** [ResNet34(num_classes)]: pretrained backbone with a fresh head.  Only
    the network it returns is modelled: [resnet34(pretrained=True)] may
    first download the weights into torch's own cache, which is the
    library's doing and is not among the [Event]s of this development. *)
Variable ResNet34 : Z -> Model.
(** [optim.SGD(model.parameters(), lr, momentum=0.9, weight_decay=1e-4)]
    together with its [MultiStepLR] scheduler. *)
Variable SGD : Model -> R -> Optimizer.
Variable scheduler_step : Optimizer -> Z -> Optimizer.
(** [optimizer.zero_grad(); loss.backward(); optimizer.step()]: the update
    is determined by the trainable flags, the batch of images and the scalar
    objective as a function of the model's output. *)
Variable backward_step :
  (string -> bool) -> Optimizer -> Model -> list Image -> (Tensor2 -> R) ->
  Model * Optimizer.
(** [FaceDataset(filepath_list, transform)], and the batches a
    [DataLoader(dataset, batch_size, shuffle)] yields on its [n]-th pass. *)
Variable Dataset : Type.
Variable FaceDataset : list string -> Transform -> Dataset.
Variable DataLoader : Dataset -> Z -> bool -> nat -> list (Batch Image).

(** *** State and effects *)

Record World : Type := {
  np_random : RandomState;
  effects : list (Event Model)
}.

Definition M (A : Type) : Type := World -> result A * World.

Definition ret {A : Type} (a : A) : M A := fun w => (Ok a, w).

Definition bind {A B : Type} (c : M A) (k : A -> M B) : M B :=
  fun w =>
    match c w with
    | (Ok a, w') => k a w'
    | (Raise e, w') => (Raise e, w')
    end.

Definition raise {A : Type} (e : exn) : M A := fun w => (Raise e, w).

Definition lift {A : Type} (r : result A) : M A := fun w => (r, w).

Definition emit (e : Event Model) : M unit :=
  fun w => (Ok tt, {| np_random := np_random w; effects := effects w ++ [e] |}).

Fixpoint emit_all (es : list (Event Model)) : M unit :=
  match es with
  | [] => ret tt
  | e :: es' => bind (emit e) (fun _ => emit_all es')
  end.

Notation "x <- c ;; k" := (bind c (fun x => k))
  (at level 61, c at next level, right associativity).
Notation "c ;;; k" := (bind c (fun _ => k))
  (at level 61, right associativity).

(** *** [get_image_list] *)

(** [np.random.choice(a, size, replace=False)]: numpy refuses a negative
    size and a sample larger than the population; an empty sample of an
    empty population is accepted (numpy 1.16 and later). *)
Definition np_random_choice (a : nat) (size : Z) : M (list nat) :=
  fun w =>
    if ((size <? 0) || (Z.of_nat a <? size))%Z then (Raise ValueError, w)
    else
      let '(index, g) := draw (np_random w) a (Z.to_nat size) in
      (Ok index, {| np_random := g; effects := effects w |}).

(** The first loop (lines 137-143). *)
Fixpoint split_by_subject (image_directory : string) (leave_sub : Z)
    (names : list string) (train_val_list test_list : list string)
  : result (list string * list string) :=
  match names with
  | [] => Ok (train_val_list, test_list)
  | fn :: names' =>
      let filepath := path_join image_directory fn in
      rbind (int_of_string (substring 0 3 fn)) (fun subject =>
        if (subject =? leave_sub)%Z
        then split_by_subject image_directory leave_sub names'
               train_val_list (test_list ++ [filepath])
        else split_by_subject image_directory leave_sub names'
               (train_val_list ++ [filepath]) test_list)
  end.

(** The second loop (lines 148-152), [i] being the running index. *)
Fixpoint split_by_index (index_val : list nat) (i : nat)
    (train_val_list : list string) (train_list val_list : list string)
  : list string * list string :=
  match train_val_list with
  | [] => (train_list, val_list)
  | fp :: rest =>
      if existsb (Nat.eqb i) index_val
      then split_by_index index_val (S i) rest train_list (val_list ++ [fp])
      else split_by_index index_val (S i) rest (train_list ++ [fp]) val_list
  end.

Definition get_image_list (image_directory : string) (leave_sub : Z)
    (validation_rate : R) : M (list string * list string * list string) :=
  lists <- lift (split_by_subject image_directory leave_sub
                   (os_listdir image_directory) [] []) ;;
  let '(train_val_list, test_list) := lists in
  let num := List.length train_val_list in
  index_val <- np_random_choice num (int_of_float (INR num * validation_rate)) ;;
  let '(train_list, val_list) := split_by_index index_val 0 train_val_list [] [] in
  ret (train_list, val_list, test_list).

(** *** [train] *)

Record Running : Type := {
  running_loss : R;
  running_mean_loss : R;
  running_variance_loss : R;
  running_softmax_loss : R
}.

Definition running_zero : Running :=
  {| running_loss := 0;
     running_mean_loss := 0;
     running_variance_loss := 0;
     running_softmax_loss := 0 |}.

Definition interval : nat := 1.

(** The scalar handed to [loss.backward()] (line 56), as a function of the
    model's output on the batch. *)
Definition objective (criterion1 : MeanVarianceLoss)
    (criterion2 : Tensor2 -> list Z -> R) (labels : list Z) (output : Tensor2) : R :=
  loss (train_losses criterion1 criterion2 output labels).

Record Learner : Type := {
  model : Model;
  optimizer : Optimizer
}.

(** The head that [ResNet34] gives the network (lines 34-38) starts with
    [BatchNorm1d(512)].  In training mode it needs more than one value per
    channel, and the forward pass of line 53 raises [ValueError] on a batch
    of one image; in evaluation mode it normalises with its running
    statistics and takes any batch. *)
Definition batch_norm_check (training : bool) (images : list Image) : result unit :=
  if training && (List.length images =? 1)%nat then Raise ValueError else Ok tt.

(** The body of the loop of [train] (lines 51-79) for batch number [i], on
    a batch that the forward pass of line 53 accepts. *)
Definition train_batch (criterion1 : MeanVarianceLoss)
    (criterion2 : Tensor2 -> list Z -> R) (requires_grad : string -> bool)
    (epoch : Z) (result_directory : string) (i : nat) (sample : Batch Image)
    (st : Learner * Running) : M (Learner * Running) :=
  let '(learner, run) := st in
  let output := model_call true (model learner) (images sample) in
  let l := train_losses criterion1 criterion2 output (labels sample) in
  let '(model', optimizer') :=
    backward_step requires_grad (optimizer learner) (model learner) (images sample)
      (objective criterion1 criterion2 (labels sample)) in
  let learner' := {| model := model'; optimizer := optimizer' |} in
  let run' :=
    {| running_loss := running_loss run + loss l;
       running_mean_loss := running_mean_loss run + mean_loss l;
       running_variance_loss := running_variance_loss run + variance_loss l;
       running_softmax_loss := running_softmax_loss run + softmax_loss l |} in
  if ((i + 1) mod interval =? 0)%nat then
    let line :=
      TrainLine epoch i
        (running_mean_loss run' / INR interval)
        (running_variance_loss run' / INR interval)
        (running_softmax_loss run' / INR interval)
        (running_loss run' / INR interval) in
    emit (Print line) ;;;
    emit (Append (path_join result_directory "log") line) ;;;
    ret (learner', running_zero)
  else ret (learner', run').

(** The loop of [train] (lines 50-79): each batch goes through the network
    in training mode, which may refuse it, and then through [train_batch]. *)
Fixpoint train_loop (criterion1 : MeanVarianceLoss)
    (criterion2 : Tensor2 -> list Z -> R) (requires_grad : string -> bool)
    (epoch : Z) (result_directory : string) (i : nat) (train_loader : list (Batch Image))
    (st : Learner * Running) : M (Learner * Running) :=
  match train_loader with
  | [] => ret st
  | sample :: rest =>
      lift (batch_norm_check true (images sample)) ;;;
      st' <- train_batch criterion1 criterion2 requires_grad epoch
               result_directory i sample st ;;
      train_loop criterion1 criterion2 requires_grad epoch result_directory
        (S i) rest st'
  end.

Definition train (train_loader : list (Batch Image)) (learner : Learner)
    (requires_grad : string -> bool) (criterion1 : MeanVarianceLoss)
    (criterion2 : Tensor2 -> list Z -> R) (epoch : Z) (result_directory : string)
  : M Learner :=
  st <- train_loop criterion1 criterion2 requires_grad epoch result_directory
          0 train_loader (learner, running_zero) ;;
  ret (fst st).

(** *** [evaluate] and [test]

    Both loaders are built with [batch_size=1], so a batch holds one image
    and the array [np.absolute(pred - label)] has one entry; [item] reads it. *)

Definition item (m : Tensor2) : R := rsum (map rsum m).

(** Lines 104-107: expected age per row, rounded, against every label. *)
Definition abs_errors (output : Tensor2) (label : list Z) : Tensor2 :=
  let a := arange START_AGE (END_AGE + 1) in
  let mean := map (fun row => dot row a) output in
  let pred := map np_around mean in
  map (fun p => map (fun y => Rabs (p - IZR y)) label) pred.

Record Totals : Type := {
  loss_val : R;
  mean_loss_val : R;
  variance_loss_val : R;
  softmax_loss_val : R;
  mae : R
}.

Definition totals_zero : Totals :=
  {| loss_val := 0; mean_loss_val := 0; variance_loss_val := 0;
     softmax_loss_val := 0; mae := 0 |}.

Definition evaluate_batch (m : Model) (criterion1 : MeanVarianceLoss)
    (criterion2 : Tensor2 -> list Z -> R) (t : Totals) (sample : Batch Image) : Totals :=
  let output := model_call false m (images sample) in
  let l := evaluate_losses criterion1 criterion2 output (labels sample) in
  {| loss_val := loss_val t + loss l;
     mean_loss_val := mean_loss_val t + mean_loss l;
     variance_loss_val := variance_loss_val t + variance_loss l;
     softmax_loss_val := softmax_loss_val t + softmax_loss l;
     mae := mae t + item (abs_errors (Softmax output) (labels sample)) |}.

(** Returns [(mean_loss, variance_loss, softmax_loss, loss, mae)]. *)
Definition evaluate (val_loader : list (Batch Image)) (m : Model)
    (criterion1 : MeanVarianceLoss) (criterion2 : Tensor2 -> list Z -> R)
  : result (R * R * R * R * R) :=
  let t := fold_left (evaluate_batch m criterion1 criterion2) val_loader totals_zero in
  let n := List.length val_loader in
  rbind (true_div (mean_loss_val t) n) (fun r1 =>
  rbind (true_div (variance_loss_val t) n) (fun r2 =>
  rbind (true_div (softmax_loss_val t) n) (fun r3 =>
  rbind (true_div (loss_val t) n) (fun r4 =>
  rbind (true_div (mae t) n) (fun r5 =>
  Ok (r1, r2, r3, r4, r5)))))).

Definition test_batch (m : Model) (acc : R) (sample : Batch Image) : R :=
  let output := Softmax (model_call false m (images sample)) in
  (acc + item (abs_errors output (labels sample)))%R.

Definition test (test_loader : list (Batch Image)) (m : Model) : result R :=
  true_div (fold_left (test_batch m) test_loader 0%R) (List.length test_loader).

(** *** [main] *)

(** [os.path.exists(path)]: [None] is not a path, and the [TypeError] that
    [os.stat] raises on it is not among the errors [exists] swallows. *)
Definition path_exists (path : option string) : M bool :=
  match path with
  | None => raise TypeError
  | Some p => ret (os_path_exists p)
  end.

(** [for param in ps: param.requires_grad = v]. *)
Definition set_requires_grad (ps : list string) (v : bool)
    (requires_grad : string -> bool) : string -> bool :=
  fun q => if in_dec string_dec q ps then v else requires_grad q.

(** Every parameter of a freshly built network is trainable. *)
Definition requires_grad_default : string -> bool := fun _ => true.

(** Lines 213-216. *)
Definition freeze_backbone : string -> bool :=
  set_requires_grad fc_parameters true
    (set_requires_grad parameters false requires_grad_default).

(** Lines 223-225. *)
Definition unfreeze_at (epoch : Z) (requires_grad : string -> bool)
  : string -> bool :=
  if (epoch =? 10)%Z then set_requires_grad parameters true requires_grad
  else requires_grad.

(** Lines 237-244: the two comparisons, their updates and their saves. *)
Definition update_best (result_directory : string) (epoch : Z) (mae loss_val : ExtR)
    (state_dict : Model) (b : Best) : Best * list (Event Model) :=
  let '(b1, saves1) :=
    if ext_gt (best_val_mae b) mae
    then ({| best_val_mae := mae;
             best_val_loss := best_val_loss b;
             best_mae_epoch := epoch;
             best_loss_epoch := best_loss_epoch b |},
          [Save (path_join result_directory "model_best_mae") state_dict])
    else (b, []) in
  let '(b2, saves2) :=
    if ext_gt (best_val_loss b1) loss_val
    then ({| best_val_mae := best_val_mae b1;
             best_val_loss := loss_val;
             best_mae_epoch := best_mae_epoch b1;
             best_loss_epoch := epoch |},
          [Save (path_join result_directory "model_best_loss") state_dict])
    else (b1, []) in
  (b2, saves1 ++ saves2).

Record RunState : Type := {
  learner : Learner;
  requires_grad : string -> bool;
  best : Best
}.

(** The three loaders [main] builds (lines 189-201), each as the batches of
    its successive passes.  Building a loader is taken to succeed. *)
Record Loaders : Type := {
  train_loader : nat -> list (Batch Image);
  val_loader : nat -> list (Batch Image);
  test_loader : nat -> list (Batch Image)
}.

Definition make_loaders (batch_size : Z)
    (train_filepath_list val_filepath_list test_filepath_list : list string)
  : Loaders :=
  {| train_loader :=
       DataLoader (FaceDataset train_filepath_list transforms_train) batch_size true;
     val_loader := DataLoader (FaceDataset val_filepath_list transforms) 1 false;
     test_loader := DataLoader (FaceDataset test_filepath_list transforms) 1 false |}.

(** Lines 203-221: the state before epoch 0. *)
Definition initial_state (args : Args) : RunState :=
  let m := ResNet34 (END_AGE - START_AGE + 1) in
  {| learner := {| model := m; optimizer := SGD m (learning_rate args) |};
     requires_grad := freeze_backbone;
     best := best_init |}.

(** The body of the epoch loop (lines 223-244); [n] counts the passes over
    the loaders, which is the epoch index.  The metrics that [evaluate]
    computes over the reals reach the comparisons as numbers. *)
Definition epoch_body (loaders : Loaders) (result_directory : string)
    (n : nat) (st : RunState) : M RunState :=
  let epoch := Z.of_nat n in
  let flags := unfreeze_at epoch (requires_grad st) in
  let scheduled :=
    {| model := model (learner st);
       optimizer := scheduler_step (optimizer (learner st)) epoch |} in
  trained <- train (train_loader loaders n) scheduled flags
               main_criterion1 main_criterion2 epoch result_directory ;;
  metrics <- lift (evaluate (val_loader loaders n) (model trained)
                     main_criterion1 main_criterion2) ;;
  let '(mean_loss, variance_loss, softmax_loss, loss_val, mae) := metrics in
  mae_test <- lift (test (test_loader loaders n) (model trained)) ;;
  let line := EpochLine epoch mean_loss variance_loss softmax_loss loss_val mae in
  let log := path_join result_directory "log" in
  emit (Print line) ;;;
  emit (Print (TestLine epoch mae_test)) ;;;
  emit (Append log line) ;;;
  emit (Append log (TestLine epoch mae_test)) ;;;
  let '(b, saves) :=
    update_best result_directory epoch (Fin mae) (Fin loss_val) (model trained)
      (best st) in
  emit_all saves ;;;
  ret {| learner := trained; requires_grad := flags; best := b |}.

(** [for epoch in range(first, first + count)]. *)
Fixpoint epoch_loop (loaders : Loaders) (result_directory : string)
    (first count : nat) (st : RunState) : M RunState :=
  match count with
  | O => ret st
  | S count' =>
      st' <- epoch_body loaders result_directory first st ;;
      epoch_loop loaders result_directory (S first) count' st'
  end.

(** Once the existence check of line 174 has returned, the result directory
    is a string; the [None] branch below it is never taken. *)
Definition main (args : Args) : M unit :=
  present <- path_exists (result_directory args) ;;
  match result_directory args with
  | None => raise TypeError
  | Some rd =>
      (if present then ret tt else emit (Mkdir rd)) ;;;
      lists <- get_image_list (image_directory args) (leave_subject args)
                 VALIDATION_RATE ;;
      let '(train_filepath_list, val_filepath_list, test_filepath_list) := lists in
      let loaders := make_loaders (batch_size args) train_filepath_list
                       val_filepath_list test_filepath_list in
      st <- epoch_loop loaders rd 0 (Z.to_nat (epoch args)) (initial_state args) ;;
      let b := best st in
      let line := BestLine (best_loss_epoch b) (best_val_loss b)
                    (best_mae_epoch b) (best_val_mae b) in
      emit (Append (path_join rd "log") line) ;;;
      emit (Print line)
  end.

(** *** The trackers over a sequence of epochs

    [track] runs the comparisons of lines 237-244 over the validation MAE,
    the validation loss and the model of epochs [first], [first + 1], ...;
    it is what the epoch loop does to [best] and to the checkpoint files. *)
Fixpoint track (result_directory : string) (first : nat)
    (vals : list (ExtR * ExtR * Model)) (b : Best) : Best * list (Event Model) :=
  match vals with
  | [] => (b, [])
  | (mae, loss_val, state_dict) :: rest =>
      let '(b1, saves) :=
        update_best result_directory (Z.of_nat first) mae loss_val state_dict b in
      let '(b2, saves') := track result_directory (S first) rest b1 in
      (b2, saves ++ saves')
  end.

(** [a < b] and [a <= b] on floats; NaN is comparable with nothing. *)
Definition ext_lt (a b : ExtR) : Prop :=
  match a, b with
  | NaN, _ => False
  | _, NaN => False
  | _, NInf => False
  | NInf, _ => True
  | PInf, _ => False
  | Fin _, PInf => True
  | Fin x, Fin y => (x < y)%R
  end.

Definition ext_le (a b : ExtR) : Prop :=
  match a, b with
  | NaN, _ => False
  | _, NaN => False
  | NInf, _ => True
  | _, PInf => True
  | _, NInf => False
  | PInf, Fin _ => False
  | Fin x, Fin y => (x <= y)%R
  end.

(** [best] is the minimum of all the values of [xs], and [epoch] the first
    index where it is attained. *)
Definition min_of_all (xs : list ExtR) (best : ExtR) (epoch : Z) : Prop :=
  exists k : nat,
    epoch = Z.of_nat k /\
    nth_error xs k = Some best /\
    (forall x, In x xs -> ext_le best x) /\
    (forall j x, (j < k)%nat -> nth_error xs j = Some x -> ext_lt best x).

(** What a tracker holds: [best] and [epoch] are the minimum of the values
    of [xs] that are below [np.inf], NaN left aside, and the first index
    where it is attained; while no such value has been seen they are still
    [np.inf] and -1. *)
Definition first_min (xs : list ExtR) (best : ExtR) (epoch : Z) : Prop :=
  match best with
  | PInf => (forall x, In x xs -> x = PInf \/ x = NaN) /\ epoch = (-1)%Z
  | NaN => False
  | _ =>
      exists k : nat,
        epoch = Z.of_nat k /\
        nth_error xs k = Some best /\
        (forall x, In x xs -> x = NaN \/ ext_le best x) /\
        (forall j x, (j < k)%nat -> nth_error xs j = Some x ->
           x = NaN \/ ext_lt best x)
  end.

(** The checkpoint file at [path] holds the model of epoch [epoch], or does
    not exist while the tracker is still at [np.inf]. *)
Definition checkpoint_of (path : string) (saves : list (Event Model))
    (models : list Model) (best : ExtR) (epoch : Z) : Prop :=
  match best with
  | PInf => last_saved path saves = None
  | NaN => False
  | _ =>
      exists state_dict,
        last_saved path saves = Some state_dict /\
        nth_error models (Z.to_nat epoch) = Some state_dict
  end.

(** The two checkpoint files, and the three columns of a sequence of epochs. *)
Definition mae_path (rd : string) : string := path_join rd "model_best_mae".
Definition loss_path (rd : string) : string := path_join rd "model_best_loss".

Definition maes (vals : list (ExtR * ExtR * Model)) : list ExtR :=
  map (fun v => fst (fst v)) vals.
Definition losses (vals : list (ExtR * ExtR * Model)) : list ExtR :=
  map (fun v => snd (fst v)) vals.
Definition models (vals : list (ExtR * ExtR * Model)) : list Model :=
  map (fun v => snd v) vals.

(** The [torch.save] calls among the effects of a run. *)
Definition saves_of (es : list (Event Model)) : list (Event Model) :=
  filter (fun e => match e with Save _ _ => true | _ => false end) es.

(** [v] is what epoch [k] of a run of the epoch loop, started in state [st]
    and world [w], hands to the comparisons: the MAE and the total loss that
    [evaluate] returns on the model as [train] leaves it in that epoch, and
    that model. *)
Definition epoch_metrics (loaders : Loaders) (rd : string) (st : RunState)
    (w : World) (k : nat) (v : ExtR * ExtR * Model) : Prop :=
  exists st_k w_k trained w1 mean_loss variance_loss softmax_loss loss_val mae,
    epoch_loop loaders rd 0 k st w = (Ok st_k, w_k) /\
    train (train_loader loaders k)
      {| model := model (learner st_k);
         optimizer := scheduler_step (optimizer (learner st_k)) (Z.of_nat k) |}
      (unfreeze_at (Z.of_nat k) (requires_grad st_k))
      main_criterion1 main_criterion2 (Z.of_nat k) rd w_k = (Ok trained, w1) /\
    evaluate (val_loader loaders k) (model trained) main_criterion1 main_criterion2
    = Ok (mean_loss, variance_loss, softmax_loss, loss_val, mae) /\
    v = (Fin mae, Fin loss_val, model trained).

(** *** The split, by file name and by position *)

(** The subject id of a file name is readable. *)
Definition well_named (fn : string) : Prop :=
  exists subject, int_of_string (substring 0 3 fn) = Ok subject.

(** The file name carries the subject id [leave_sub]. *)
Definition in_test (leave_sub : Z) (fn : string) : bool :=
  match int_of_string (substring 0 3 fn) with
  | Ok subject => (subject =? leave_sub)%Z
  | Raise _ => false
  end.

Definition in_pool (leave_sub : Z) (fn : string) : bool :=
  negb (in_test leave_sub fn).

(** The entries of [l] whose position, counted from [i], is in [index_val],
    and the other ones. *)
Fixpoint picked (index_val : list nat) (i : nat) (l : list string) : list string :=
  match l with
  | [] => []
  | fp :: rest =>
      if existsb (Nat.eqb i) index_val
      then fp :: picked index_val (S i) rest
      else picked index_val (S i) rest
  end.

Fixpoint unpicked (index_val : list nat) (i : nat) (l : list string) : list string :=
  match l with
  | [] => []
  | fp :: rest =>
      if existsb (Nat.eqb i) index_val
      then unpicked index_val (S i) rest
      else fp :: unpicked index_val (S i) rest
  end.

(** What the script relies on from [np.random.choice(a, k, replace=False)]
    for [k <= a]: [k] distinct indices below [a]. *)
Definition draw_contract : Prop :=
  forall (g : RandomState) (a k : nat),
    (k <= a)%nat ->
    NoDup (fst (draw g a k)) /\
    List.length (fst (draw g a k)) = k /\
    Forall (fun i => (i < a)%nat) (fst (draw g a k)).

(** A file is in the same one of the three lists in both splits. *)
Definition same_sets (r1 r2 : list string * list string * list string)
    (fp : string) : Prop :=
  let '(train1, val1, test1) := r1 in
  let '(train2, val2, test2) := r2 in
  (In fp train1 <-> In fp train2) /\
  (In fp val1 <-> In fp val2) /\
  (In fp test1 <-> In fp test2).


(** *** Further vocabulary for the loops and their effects *)

(** The two effects of one log line of [train]: printed, then appended to
    the log file of the result directory. *)
Definition logged (result_directory : string) (lines : list LogMsg)
  : list (Event Model) :=
  flat_map (fun line => [Print line; Append (path_join result_directory "log") line])
    lines.

(** An effect that stays inside the result directory [rd]: the directory
    itself, its log file, its two checkpoint files, or plain output. *)
Definition writes_inside (rd : string) (e : Event Model) : Prop :=
  match e with
  | Mkdir p => p = rd
  | Print _ => True
  | Append p _ => p = path_join rd "log"
  | Save p _ => p = mae_path rd \/ p = loss_path rd
  end.

(** Whatever its outcome, [c] only adds effects that satisfy [P]. *)
Definition only_adds {A : Type} (P : Event Model -> Prop) (c : M A) : Prop :=
  forall w, exists es, effects (snd (c w)) = effects w ++ es /\ Forall P es.


(** The world after lines 174-175: the result directory is made when it
    does not exist. *)
Definition after_mkdir (rd : string) (w : World) : World :=
  if os_path_exists rd then w
  else {| np_random := np_random w; effects := effects w ++ [Mkdir rd] |}.

(** The last line of a run (lines 245-249). *)
Definition final_line (b : Best) : LogMsg :=
  BestLine (best_loss_epoch b) (best_val_loss b) (best_mae_epoch b) (best_val_mae b).

(** Every batch of the loader goes through the network in training mode. *)
Definition accepted (loader : list (Batch Image)) : Prop :=
  Forall (fun sample => batch_norm_check true (images sample) = Ok tt) loader.

(** The line that [train] logs for batch [i] of an epoch, entered with the
    model [m]: the three losses of this batch and their sum. *)
Definition train_line (criterion1 : MeanVarianceLoss)
    (criterion2 : Tensor2 -> list Z -> R) (epoch : Z) (i : nat) (m : Model)
    (sample : Batch Image) : LogMsg :=
  let l := train_losses criterion1 criterion2
             (model_call true m (images sample)) (labels sample) in
  TrainLine epoch i (mean_loss l) (variance_loss l) (softmax_loss l) (loss l).

(** The epochs whose validation line was printed, in order. *)
Definition printed_epochs (es : list (Event Model)) : list Z :=
  flat_map (fun e => match e with
                     | Print (EpochLine epoch _ _ _ _ _) => [epoch]
                     | _ => []
                     end) es.

(** * Properties *)

(** ** Sums, exponentials and the two criteria *)

Lemma rsum_app (l l' : list R) : rsum (l ++ l') = (rsum l + rsum l')%R.
Proof.
  induction l as [|x l IH]; simpl.
  - lra.
  - rewrite IH. lra.
Qed.









Lemma rmean_singleton (x : R) : rmean [x] = x.
Proof. unfold rmean. simpl. field. Qed.




(** ** The weights of the distribution loss built in [main] *)

Lemma two_point_terms :
  mean_term (arange START_AGE (END_AGE + 1)) two_point [0%Z] = (1 / 2)%R /\
  variance_term (arange START_AGE (END_AGE + 1)) two_point = 1%R.
Proof.
  unfold mean_term, variance_term, two_point.
  cbv [map map2].
  rewrite !rmean_singleton.
  unfold age_variance, expected_age, dot, arange, START_AGE, END_AGE.
  cbv [repeat Z.sub Z.add Z.opp Z.pos_sub Z.to_nat Pos.to_nat Pos.iter_op
       Pos.add Pos.succ Pos.pred_double Pos.double_mask Pos.sub_mask
       Pos.succ_double_mask Pos.double_pred_mask Z.succ_double Z.pred_double
       Z.double Nat.add seq map map2 rsum fold_right Z.of_nat Pos.of_succ_nat].
  split; lra.
Qed.

(** C1 (the code departs from the claim): the criterion of line 207 is built
    as [MeanVarianceLoss(LAMBDA_2, LAMBDA_1, ...)], so on every batch its
    mean term is weighted by 0.05 and its variance term by 0.2; on the
    two-point distribution with label 0 it returns [(0.025, 0.2)] where
    weights 0.2 and 0.05 would give [(0.1, 0.05)]. *)
Theorem main_criterion1_swaps_the_weights :
  (forall input target,
      mvl_forward main_criterion1 input target =
      ((5 / 100) * mean_term (arange 0 70) input target,
       (2 / 10) * variance_term (arange 0 70) input)%R) /\
  mvl_forward main_criterion1 two_point [0%Z] = (25 / 1000, 2 / 10)%R /\
  fst (mvl_forward main_criterion1 two_point [0%Z])
    <> (LAMBDA_1 * mean_term (arange 0 70) two_point [0%Z])%R /\
  snd (mvl_forward main_criterion1 two_point [0%Z])
    <> (LAMBDA_2 * variance_term (arange 0 70) two_point)%R.
Proof.
  destruct two_point_terms as [Hm Hv].
  change (arange START_AGE (END_AGE + 1)) with (arange 0 70) in Hm, Hv.
  assert (Hall : forall input target,
             mvl_forward main_criterion1 input target =
             ((5 / 100) * mean_term (arange 0 70) input target,
              (2 / 10) * variance_term (arange 0 70) input)%R).
  { intros input target. reflexivity. }
  split; [exact Hall|].
  rewrite Hall, Hm, Hv. unfold LAMBDA_1, LAMBDA_2. simpl fst. simpl snd.
  split; [f_equal; lra|].
  split; lra.
Qed.

(** ** Training and evaluation do not compute the same cross-entropy *)


(** ** The training step *)

Lemma labels_minus_start_age (ys : list Z) :
  map (fun y => y - START_AGE)%Z ys = ys.
Proof.
  induction ys as [|y ys IH]; simpl.
  - reflexivity.
  - rewrite IH. unfold START_AGE. rewrite Z.sub_0_r. reflexivity.
Qed.

Lemma objective_unfold (c1 : MeanVarianceLoss) (c2 : Tensor2 -> list Z -> R)
    (ys : list Z) (output : Tensor2) :
  objective c1 c2 ys output =
  (fst (mvl_forward c1 output ys) + snd (mvl_forward c1 output ys)
   + c2 output ys)%R.
Proof.
  unfold objective, train_losses.
  destruct (mvl_forward c1 output ys) as [m v]. reflexivity.
Qed.

(** C7: in every training step the optimizer update is computed from one
    scalar, the objective of the batch, and that objective is
    [mean_loss + variance_loss + softmax_loss] with [softmax_loss] the
    cross-entropy of the raw output against the class indices
    [label - START_AGE]. *)
Theorem backward_receives_the_total_loss
    (flags : string -> bool) (epoch : Z) (rd : string) (i : nat)
    (sample : Batch Image) (l : Learner) (run : Running) (w : World) :
  (forall output,
      objective main_criterion1 main_criterion2 (labels sample) output =
      (fst (mvl_forward main_criterion1 output (labels sample))
       + snd (mvl_forward main_criterion1 output (labels sample))
       + CrossEntropyLoss output
           (map (fun y => y - START_AGE)%Z (labels sample)))%R) /\
  exists run' w',
    train_batch main_criterion1 main_criterion2 flags epoch rd i sample (l, run) w
    = (Ok ({| model :=
                fst (backward_step flags (optimizer l) (model l) (images sample)
                       (objective main_criterion1 main_criterion2 (labels sample)));
              optimizer :=
                snd (backward_step flags (optimizer l) (model l) (images sample)
                       (objective main_criterion1 main_criterion2 (labels sample)))
           |}, run'), w').
Proof.
  split.
  - intros output. rewrite labels_minus_start_age. apply objective_unfold.
  - unfold train_batch.
    destruct (backward_step flags (optimizer l) (model l) (images sample)
                (objective main_criterion1 main_criterion2 (labels sample)))
      as [m' o'].
    unfold interval. rewrite Nat.mod_1_r. simpl Nat.eqb. cbv iota.
    unfold bind, emit, ret. simpl.
    eexists. eexists. reflexivity.
Qed.

(** ** Division by the number of batches *)

Lemma true_div_ok (x : R) (n : nat) :
  n <> 0%nat -> true_div x n = Ok (x / INR n)%R.
Proof. destruct n; [contradiction | reflexivity]. Qed.

Lemma evaluate_nonempty (val_loader : list (Batch Image)) (m : Model)
    (c1 : MeanVarianceLoss) (c2 : Tensor2 -> list Z -> R) :
  val_loader <> [] -> exists v, evaluate val_loader m c1 c2 = Ok v.
Proof.
  intros Hne. unfold evaluate.
  assert (Hn : List.length val_loader <> 0%nat).
  { destruct val_loader; [contradiction | discriminate]. }
  rewrite !(true_div_ok _ Hn). simpl. eexists. reflexivity.
Qed.

Lemma test_nonempty (test_loader : list (Batch Image)) (m : Model) :
  test_loader <> [] -> exists v, test test_loader m = Ok v.
Proof.
  intros Hne. unfold test.
  assert (Hn : List.length test_loader <> 0%nat).
  { destruct test_loader; [contradiction | discriminate]. }
  rewrite (true_div_ok _ Hn). eexists. reflexivity.
Qed.

(** C10: [evaluate] and [test] divide by the number of batches without a
    guard: on an empty loader both raise [ZeroDivisionError], and on every
    non-empty loader both return a value. *)
Theorem evaluate_and_test_need_a_nonempty_loader
    (m : Model) (c1 : MeanVarianceLoss) (c2 : Tensor2 -> list Z -> R) :
  evaluate [] m c1 c2 = Raise ZeroDivisionError /\
  test [] m = Raise ZeroDivisionError /\
  (forall val_loader,
      val_loader <> [] -> exists v, evaluate val_loader m c1 c2 = Ok v) /\
  (forall test_loader,
      test_loader <> [] -> exists v, test test_loader m = Ok v).
Proof.
  split; [reflexivity|]. split; [reflexivity|]. split.
  - intros val_loader Hne. apply evaluate_nonempty. exact Hne.
  - intros test_loader Hne. apply test_nonempty. exact Hne.
Qed.

(** ** The command line *)

(** C9: without [--result_directory] the existence check of [main] raises,
    and the run ends there: nothing was drawn from the generator, no
    directory was made, nothing was logged or saved. *)
Theorem main_without_result_directory (args : Args) (w : World) :
  result_directory args = None ->
  path_exists (result_directory args) w = (Raise TypeError, w) /\
  main args w = (Raise TypeError, w).
Proof.
  intros Hnone. unfold main. rewrite Hnone.
  unfold bind, path_exists, raise. split; reflexivity.
Qed.

(** C2: two invocations whose arguments agree on everything but [--resume]
    start from the same model, optimizer, flags and trackers, and from any
    world they end with the same result, the same generator state and the
    same sequence of effects. *)
Theorem resume_is_never_read (a1 a2 : Args) :
  batch_size a1 = batch_size a2 ->
  image_directory a1 = image_directory a2 ->
  leave_subject a1 = leave_subject a2 ->
  learning_rate a1 = learning_rate a2 ->
  epoch a1 = epoch a2 ->
  result_directory a1 = result_directory a2 ->
  initial_state a1 = initial_state a2 /\
  forall w, main a1 w = main a2 w.
Proof.
  destruct a1 as [b1 i1 s1 l1 e1 r1 d1], a2 as [b2 i2 s2 l2 e2 r2 d2].
  simpl. intros -> -> -> -> -> ->.
  split.
  - reflexivity.
  - intros w. reflexivity.
Qed.

(** ** The epoch loop *)

Lemma emit_all_run (es : list (Event Model)) (w : World) :
  emit_all es w =
  (Ok tt, {| np_random := np_random w; effects := effects w ++ es |}).
Proof.
  revert w. induction es as [|e es IH]; intros w.
  - simpl. unfold ret. rewrite app_nil_r. destruct w; reflexivity.
  - simpl. unfold bind, emit. rewrite IH. simpl.
    rewrite <- app_assoc. reflexivity.
Qed.

Lemma train_batch_returns (c1 : MeanVarianceLoss) (c2 : Tensor2 -> list Z -> R)
    (flags : string -> bool) (epoch : Z) (rd : string) (i : nat)
    (sample : Batch Image) (st : Learner * Running) (w : World) :
  exists st' w',
    train_batch c1 c2 flags epoch rd i sample st w = (Ok st', w') /\
    np_random w' = np_random w.
Proof.
  unfold train_batch. destruct st as [l run].
  destruct (backward_step flags (optimizer l) (model l) (images sample)
              (objective c1 c2 (labels sample))) as [m' o'].
  destruct ((i + 1) mod interval =? 0)%nat.
  - unfold bind, emit, ret. simpl. eexists. eexists. split; reflexivity.
  - unfold ret. eexists. eexists. split; reflexivity.
Qed.

(** One step of the loop of [train], by what the network makes of the
    batch. *)
Lemma train_loop_cons (c1 : MeanVarianceLoss) (c2 : Tensor2 -> list Z -> R)
    (flags : string -> bool) (epoch : Z) (rd : string) (i : nat)
    (sample : Batch Image) (rest : list (Batch Image))
    (st : Learner * Running) (w : World) :
  train_loop c1 c2 flags epoch rd i (sample :: rest) st w =
  match batch_norm_check true (images sample) with
  | Ok _ =>
      match train_batch c1 c2 flags epoch rd i sample st w with
      | (Ok st', w') => train_loop c1 c2 flags epoch rd (S i) rest st' w'
      | (Raise e, w') => (Raise e, w')
      end
  | Raise e => (Raise e, w)
  end.
Proof.
  cbn [train_loop]. unfold bind, lift.
  destruct (batch_norm_check true (images sample)); reflexivity.
Qed.

Lemma train_loop_returns (c1 : MeanVarianceLoss) (c2 : Tensor2 -> list Z -> R)
    (flags : string -> bool) (epoch : Z) (rd : string)
    (loader : list (Batch Image)) :
  accepted loader ->
  forall (i : nat) (st : Learner * Running) (w : World),
  exists st' w',
    train_loop c1 c2 flags epoch rd i loader st w = (Ok st', w') /\
    np_random w' = np_random w.
Proof.
  induction 1 as [|sample rest Hs Hrest IH]; intros i st w.
  - simpl. unfold ret. exists st, w. split; reflexivity.
  - rewrite train_loop_cons, Hs.
    destruct (train_batch_returns c1 c2 flags epoch rd i sample st w)
      as [st1 [w1 [H1 G1]]].
    rewrite H1.
    destruct (IH (S i) st1 w1) as [st2 [w2 [H2 G2]]].
    exists st2, w2. split; [exact H2 | congruence].
Qed.

Lemma train_returns (loader : list (Batch Image)) (l : Learner)
    (flags : string -> bool) (c1 : MeanVarianceLoss)
    (c2 : Tensor2 -> list Z -> R) (epoch : Z) (rd : string) (w : World) :
  accepted loader ->
  exists l' w',
    train loader l flags c1 c2 epoch rd w = (Ok l', w') /\
    np_random w' = np_random w.
Proof.
  intros Hacc. unfold train, bind.
  destruct (train_loop_returns c1 c2 flags epoch rd Hacc 0 (l, running_zero) w)
    as [st [w' [H G]]].
  rewrite H. unfold ret. exists (fst st), w'. split; [reflexivity | exact G].
Qed.

(** [train] returns only on a loader whose batches the network accepts. *)
Lemma train_loop_ok_accepted (c1 : MeanVarianceLoss) (c2 : Tensor2 -> list Z -> R)
    (flags : string -> bool) (epoch : Z) (rd : string)
    (loader : list (Batch Image)) :
  forall (i : nat) (st st' : Learner * Running) (w w' : World),
  train_loop c1 c2 flags epoch rd i loader st w = (Ok st', w') ->
  accepted loader.
Proof.
  induction loader as [|sample rest IH]; intros i st st' w w' H.
  - constructor.
  - rewrite train_loop_cons in H.
    destruct (batch_norm_check true (images sample)) as [[]|e] eqn:Hs;
      [|discriminate H].
    destruct (train_batch c1 c2 flags epoch rd i sample st w) as [[st1|e] w1];
      [|discriminate H].
    constructor; [exact Hs|]. eapply IH. exact H.
Qed.

Lemma train_ok_accepted (loader : list (Batch Image)) (l l' : Learner)
    (flags : string -> bool) (c1 : MeanVarianceLoss)
    (c2 : Tensor2 -> list Z -> R) (epoch : Z) (rd : string) (w w' : World) :
  train loader l flags c1 c2 epoch rd w = (Ok l', w') -> accepted loader.
Proof.
  unfold train, bind. intros H.
  destruct (train_loop c1 c2 flags epoch rd 0 loader (l, running_zero) w)
    as [[st|e] w1] eqn:Hl; [|discriminate H].
  eapply train_loop_ok_accepted. exact Hl.
Qed.

Lemma logged_app (rd : string) (l1 l2 : list LogMsg) :
  logged rd (l1 ++ l2) = logged rd l1 ++ logged rd l2.
Proof. unfold logged. apply flat_map_app. Qed.

(** Whatever its outcome, [train] adds log lines of its own and nothing
    else. *)
Lemma train_loop_effects (c1 : MeanVarianceLoss) (c2 : Tensor2 -> list Z -> R)
    (flags : string -> bool) (epoch : Z) (rd : string)
    (loader : list (Batch Image)) :
  forall (i : nat) (st : Learner * Running) (w : World),
  exists lines,
    effects (snd (train_loop c1 c2 flags epoch rd i loader st w))
    = effects w ++ logged rd lines /\
    Forall (fun line => exists epoch i ml vl sl lo,
              line = TrainLine epoch i ml vl sl lo) lines.
Proof.
  induction loader as [|sample rest IH]; intros i st w.
  - exists []. simpl. rewrite app_nil_r. split; [reflexivity | constructor].
  - rewrite train_loop_cons.
    destruct (batch_norm_check true (images sample)) as [[]|e].
    + unfold train_batch. destruct st as [l run].
      destruct (backward_step flags (optimizer l) (model l) (images sample)
                  (objective c1 c2 (labels sample))) as [m' o'].
      destruct ((i + 1) mod interval =? 0)%nat.
      * unfold bind, emit, ret. cbn [np_random effects].
        match goal with
        | |- context [train_loop c1 c2 flags epoch rd (S i) rest ?s ?w1] =>
            destruct (IH (S i) s w1) as (lines & Hl & Hall)
        end.
        match type of Hl with
        | context [Append _ ?line] => exists (line :: lines)
        end.
        split.
        -- rewrite Hl. cbn [effects]. rewrite <- !app_assoc. reflexivity.
        -- constructor; [|exact Hall]. do 6 eexists. reflexivity.
      * unfold ret. apply IH.
    + exists []. simpl. rewrite app_nil_r. split; [reflexivity | constructor].
Qed.

Lemma train_lines_only (loader : list (Batch Image)) (l l' : Learner)
    (flags : string -> bool) (c1 : MeanVarianceLoss)
    (c2 : Tensor2 -> list Z -> R) (epoch : Z) (rd : string) (w w' : World) :
  train loader l flags c1 c2 epoch rd w = (Ok l', w') ->
  exists lines,
    effects w' = effects w ++ logged rd lines /\
    Forall (fun line => exists epoch i ml vl sl lo,
              line = TrainLine epoch i ml vl sl lo) lines.
Proof.
  unfold train, bind. intros H.
  destruct (train_loop_effects c1 c2 flags epoch rd loader 0 (l, running_zero) w)
    as (lines & Hl & Hall).
  destruct (train_loop c1 c2 flags epoch rd 0 loader (l, running_zero) w)
    as [[st|e] w1]; [|discriminate H].
  unfold ret in H. injection H as _ <-. exists lines. split; assumption.
Qed.

Lemma train_effects (loader : list (Batch Image)) (l l' : Learner)
    (flags : string -> bool) (c1 : MeanVarianceLoss)
    (c2 : Tensor2 -> list Z -> R) (epoch : Z) (rd : string) (w w' : World) :
  train loader l flags c1 c2 epoch rd w = (Ok l', w') ->
  exists lines, effects w' = effects w ++ logged rd lines.
Proof.
  intros H. destruct (train_lines_only _ _ _ _ _ _ _ _ H) as (lines & Hl & _).
  exists lines. exact Hl.
Qed.

(** What one completed epoch leaves behind. *)
Lemma epoch_body_inv (loaders : Loaders) (rd : string) (n : nat)
    (st st' : RunState) (w w' : World) :
  epoch_body loaders rd n st w = (Ok st', w') ->
  exists trained w1 mean_loss variance_loss softmax_loss loss_val mae mae_test,
    train (train_loader loaders n)
      {| model := model (learner st);
         optimizer := scheduler_step (optimizer (learner st)) (Z.of_nat n) |}
      (unfreeze_at (Z.of_nat n) (requires_grad st))
      main_criterion1 main_criterion2 (Z.of_nat n) rd w = (Ok trained, w1) /\
    evaluate (val_loader loaders n) (model trained) main_criterion1 main_criterion2
    = Ok (mean_loss, variance_loss, softmax_loss, loss_val, mae) /\
    test (test_loader loaders n) (model trained) = Ok mae_test /\
    learner st' = trained /\
    requires_grad st' = unfreeze_at (Z.of_nat n) (requires_grad st) /\
    best st' =
      fst (update_best rd (Z.of_nat n) (Fin mae) (Fin loss_val) (model trained)
             (best st)) /\
    np_random w' = np_random w1 /\
    effects w' =
      effects w1
      ++ [Print (EpochLine (Z.of_nat n) mean_loss variance_loss softmax_loss
                   loss_val mae);
          Print (TestLine (Z.of_nat n) mae_test);
          Append (path_join rd "log")
            (EpochLine (Z.of_nat n) mean_loss variance_loss softmax_loss
               loss_val mae);
          Append (path_join rd "log") (TestLine (Z.of_nat n) mae_test)]
      ++ snd (update_best rd (Z.of_nat n) (Fin mae) (Fin loss_val) (model trained)
                (best st)).
Proof.
  unfold epoch_body, bind, lift.
  destruct (train _ _ _ _ _ _ _ w) as [[trained | e] w1]; [|discriminate].
  destruct (evaluate _ _ _ _) as [[[[[ml vl] sl] lv] ma] | e] eqn:Hev;
    [|discriminate].
  destruct (test _ _) as [mt | e] eqn:Hte; [|discriminate].
  unfold emit. simpl.
  destruct (update_best rd (Z.of_nat n) (Fin ma) (Fin lv) (model trained) (best st))
    as [b saves] eqn:Hub.
  rewrite emit_all_run. unfold ret. simpl.
  intros Heq. inversion Heq; subst; clear Heq. simpl.
  exists trained, w1, ml, vl, sl, lv, ma, mt.
  rewrite Hub. simpl.
  repeat split; try reflexivity; try assumption.
  rewrite <- !app_assoc. reflexivity.
Qed.

(** With training batches that the network accepts, and a validation and a
    test batch, an epoch completes. *)
Lemma epoch_body_returns (loaders : Loaders) (rd : string) (n : nat)
    (st : RunState) (w : World) :
  accepted (train_loader loaders n) ->
  val_loader loaders n <> [] ->
  test_loader loaders n <> [] ->
  exists st' w', epoch_body loaders rd n st w = (Ok st', w').
Proof.
  intros Hacc Hval Htest. unfold epoch_body, bind, lift.
  destruct (@train_returns (train_loader loaders n)
              {| model := model (learner st);
                 optimizer := scheduler_step (optimizer (learner st)) (Z.of_nat n) |}
              (unfreeze_at (Z.of_nat n) (requires_grad st))
              main_criterion1 main_criterion2 (Z.of_nat n) rd w Hacc)
    as [trained [w1 [Htrain _]]].
  rewrite Htrain.
  destruct (evaluate_nonempty (model trained) main_criterion1 main_criterion2 Hval)
    as [[[[[ml vl] sl] lv] ma] Hev].
  rewrite Hev.
  destruct (test_nonempty (model trained) Htest) as [mt Ht].
  rewrite Ht. unfold emit. simpl.
  destruct (update_best rd (Z.of_nat n) (Fin ma) (Fin lv) (model trained) (best st))
    as [b saves].
  rewrite emit_all_run. unfold ret. eexists. eexists. reflexivity.
Qed.

Lemma epoch_loop_returns (loaders : Loaders) (rd : string) :
  (forall n, accepted (train_loader loaders n)) ->
  (forall n, val_loader loaders n <> []) ->
  (forall n, test_loader loaders n <> []) ->
  forall (count first : nat) (st : RunState) (w : World),
  exists st' w', epoch_loop loaders rd first count st w = (Ok st', w').
Proof.
  intros Hacc Hval Htest. induction count as [|count IH]; intros first st w.
  - simpl. unfold ret. exists st, w. reflexivity.
  - simpl. unfold bind.
    destruct (epoch_body_returns loaders rd first st w (Hacc first) (Hval first)
                (Htest first))
      as [st1 [w1 H1]].
    rewrite H1. apply IH.
Qed.

(** The loop split at its last epoch. *)
Lemma epoch_loop_snoc (loaders : Loaders) (rd : string) :
  forall (count first : nat) (st st' : RunState) (w w' : World),
  epoch_loop loaders rd first (S count) st w = (Ok st', w') ->
  exists st1 w1,
    epoch_loop loaders rd first count st w = (Ok st1, w1) /\
    epoch_body loaders rd (first + count) st1 w1 = (Ok st', w').
Proof.
  induction count as [|count IH]; intros first st st' w w' H.
  - simpl in H. unfold bind in H.
    destruct (epoch_body loaders rd first st w) as [[st1 | e] w1] eqn:Hb;
      [|discriminate].
    unfold ret in H. inversion H; subst; clear H.
    exists st, w. split; [reflexivity|].
    rewrite Nat.add_0_r. exact Hb.
  - change (epoch_loop loaders rd first (S (S count)) st w)
      with (bind (epoch_body loaders rd first st)
              (fun s => epoch_loop loaders rd (S first) (S count) s) w) in H.
    unfold bind in H.
    destruct (epoch_body loaders rd first st w) as [[st1 | e] w1] eqn:Hb;
      [|discriminate].
    destruct (IH (S first) st1 st' w1 w' H) as [st2 [w2 [Hl Hlast]]].
    exists st2, w2. split.
    + simpl. unfold bind. rewrite Hb. exact Hl.
    + replace (first + S count)%nat with (S first + count)%nat by lia.
      exact Hlast.
Qed.

(** ** Freezing and unfreezing *)

Lemma set_requires_grad_in (ps : list string) (v : bool)
    (flags : string -> bool) (p : string) :
  In p ps -> set_requires_grad ps v flags p = v.
Proof.
  intros Hin. unfold set_requires_grad.
  destruct (in_dec string_dec p ps); [reflexivity | contradiction].
Qed.

Lemma set_requires_grad_out (ps : list string) (v : bool)
    (flags : string -> bool) (p : string) :
  ~ In p ps -> set_requires_grad ps v flags p = flags p.
Proof.
  intros Hout. unfold set_requires_grad.
  destruct (in_dec string_dec p ps); [contradiction | reflexivity].
Qed.

Lemma freeze_backbone_spec (p : string) :
  In p parameters ->
  freeze_backbone p = if in_dec string_dec p fc_parameters then true else false.
Proof.
  intros Hin. unfold freeze_backbone.
  destruct (in_dec string_dec p fc_parameters) as [Hfc | Hfc].
  - apply set_requires_grad_in. exact Hfc.
  - rewrite set_requires_grad_out by exact Hfc.
    apply set_requires_grad_in. exact Hin.
Qed.

Lemma unfreeze_at_monotone (epoch : Z) (flags : string -> bool) (p : string) :
  flags p = true -> unfreeze_at epoch flags p = true.
Proof.
  intros Hp. unfold unfreeze_at. destruct (epoch =? 10)%Z; [|exact Hp].
  unfold set_requires_grad. destruct (in_dec string_dec p parameters);
    [reflexivity | exact Hp].
Qed.

(** The flags after [count] completed epochs, counted from epoch 0. *)
Lemma epoch_loop_flags (loaders : Loaders) (rd : string) :
  forall (count : nat) (st st' : RunState) (w w' : World),
  epoch_loop loaders rd 0 count st w = (Ok st', w') ->
  requires_grad st' =
  if (count <=? 10)%nat then requires_grad st
  else set_requires_grad parameters true (requires_grad st).
Proof.
  induction count as [|count IH]; intros st st' w w' H.
  - simpl in H. unfold ret in H. inversion H; subst. reflexivity.
  - destruct (epoch_loop_snoc loaders rd count 0 st w H) as [st1 [w1 [Hl Hb]]].
    apply epoch_body_inv in Hb.
    destruct Hb as (tr & w2 & ml & vl & sl & lv & ma & mt & _ & _ & _ & _ & Hf & _).
    rewrite Hf. rewrite (IH st st1 w w1 Hl). simpl Nat.add.
    unfold unfreeze_at.
    destruct (Nat.eq_dec count 10) as [-> | Hne].
    + reflexivity.
    + assert (Hz : (Z.of_nat count =? 10)%Z = false) by (apply Z.eqb_neq; lia).
      rewrite Hz.
      destruct (count <=? 10)%nat eqn:H1; destruct (S count <=? 10)%nat eqn:H2;
        try reflexivity.
      * apply Nat.leb_le in H1. apply Nat.leb_gt in H2. lia.
      * apply Nat.leb_gt in H1. apply Nat.leb_le in H2. lia.
Qed.

(** C6: before epoch 0 a parameter is trainable exactly when it belongs to
    the classification head; the flags stay so through epochs 0 to 9, are
    all set at epoch 10, and from then on every parameter stays trainable:
    an epoch other than epoch 10 leaves the flags alone, and no epoch
    clears a flag. *)
Theorem freeze_then_unfreeze_once (args : Args) (loaders : Loaders)
    (rd : string) (count : nat) (st : RunState) (w w' : World) :
  epoch_loop loaders rd 0 count (initial_state args) w = (Ok st, w') ->
  (forall p, In p parameters ->
     requires_grad (initial_state args) p =
     if in_dec string_dec p fc_parameters then true else false) /\
  ((count <= 10)%nat -> requires_grad st = requires_grad (initial_state args)) /\
  ((10 < count)%nat -> forall p, In p parameters -> requires_grad st p = true) /\
  (forall st2 w2,
     epoch_body loaders rd count st w' = (Ok st2, w2) ->
     (count <> 10%nat -> requires_grad st2 = requires_grad st) /\
     (count = 10%nat -> forall p, In p parameters -> requires_grad st2 p = true) /\
     (forall p, requires_grad st p = true -> requires_grad st2 p = true)).
Proof.
  intros Hrun. pose proof (epoch_loop_flags loaders rd count _ w Hrun) as Hf.
  split; [|split; [|split]].
  - intros p Hin. simpl. apply freeze_backbone_spec. exact Hin.
  - intros Hle. rewrite Hf.
    destruct (count <=? 10)%nat eqn:H1; [reflexivity|].
    apply Nat.leb_gt in H1. lia.
  - intros Hgt p Hin. rewrite Hf.
    destruct (count <=? 10)%nat eqn:H1.
    + apply Nat.leb_le in H1. lia.
    + apply set_requires_grad_in. exact Hin.
  - intros st2 w2 Hb. apply epoch_body_inv in Hb.
    destruct Hb as (tr & w1 & ml & vl & sl & lv & ma & mt & _ & _ & _ & _ & Hf2 & _).
    rewrite Hf2. split; [|split].
    + intros Hne. unfold unfreeze_at.
      assert (Hz : (Z.of_nat count =? 10)%Z = false) by (apply Z.eqb_neq; lia).
      rewrite Hz. reflexivity.
    + intros -> p Hin. unfold unfreeze_at. simpl.
      apply set_requires_grad_in. exact Hin.
    + intros p Hp. apply unfreeze_at_monotone. exact Hp.
Qed.

(** ** The best-metric trackers *)

Lemma ext_gt_lt (best x : ExtR) : ext_gt best x = true <-> ext_lt x best.
Proof.
  destruct best as [|b| |], x as [|y| |]; simpl;
    try (split; [discriminate | contradiction]);
    try (split; [intros _; exact I | reflexivity]).
  destruct (Rlt_dec y b); split; intros H;
    try reflexivity; try assumption; try discriminate; contradiction.
Qed.

Lemma ext_lt_le (a b : ExtR) : ext_lt a b -> ext_le a b.
Proof.
  destruct a, b; simpl; intros H; try contradiction; try exact I; lra.
Qed.

Lemma ext_lt_le_trans (a b c : ExtR) : ext_lt a b -> ext_le b c -> ext_lt a c.
Proof.
  destruct a, b, c; simpl; intros H1 H2; try contradiction; try exact I; lra.
Qed.

Lemma ext_le_refl (a : ExtR) : a <> NaN -> ext_le a a.
Proof. destruct a; simpl; intros H; try exact I; [lra | congruence]. Qed.

(** A value that does not win the comparison is NaN or not below the
    tracked one. *)
Lemma ext_gt_false_le (best x : ExtR) :
  best <> NaN -> ext_gt best x = false -> x = NaN \/ ext_le best x.
Proof.
  destruct best as [|b| |], x as [|y| |]; simpl; intros Hb H;
    try discriminate; try congruence;
    try (left; reflexivity); try (right; exact I).
  right. destruct (Rlt_dec y b); [discriminate | lra].
Qed.

Lemma ext_lt_shape (x best : ExtR) :
  ext_lt x best -> x <> PInf /\ x <> NaN /\ best <> NaN.
Proof.
  destruct x, best; simpl; intros H; try contradiction;
    repeat split; discriminate.
Qed.

(** [update_best], field by field. *)
Lemma update_best_spec (rd : string) (epoch : Z) (mae loss_val : ExtR)
    (m : Model) (b : Best) :
  let b' := fst (update_best rd epoch mae loss_val m b) in
  best_val_mae b' = (if ext_gt (best_val_mae b) mae then mae else best_val_mae b) /\
  best_mae_epoch b' = (if ext_gt (best_val_mae b) mae then epoch else best_mae_epoch b) /\
  best_val_loss b' =
    (if ext_gt (best_val_loss b) loss_val then loss_val else best_val_loss b) /\
  best_loss_epoch b' =
    (if ext_gt (best_val_loss b) loss_val then epoch else best_loss_epoch b) /\
  snd (update_best rd epoch mae loss_val m b) =
    (if ext_gt (best_val_mae b) mae then [Save (mae_path rd) m] else [])
    ++ (if ext_gt (best_val_loss b) loss_val then [Save (loss_path rd) m] else []).
Proof.
  unfold update_best, mae_path, loss_path.
  destruct (ext_gt (best_val_mae b) mae); simpl;
    destruct (ext_gt (best_val_loss b) loss_val); simpl;
    repeat split; reflexivity.
Qed.

Lemma track_snoc (rd : string) (vals : list (ExtR * ExtR * Model))
    (mae loss_val : ExtR) (m : Model) :
  forall (first : nat) (b : Best),
  track rd first (vals ++ [(mae, loss_val, m)]) b =
  (fst (update_best rd (Z.of_nat (first + List.length vals)) mae loss_val m
          (fst (track rd first vals b))),
   snd (track rd first vals b)
   ++ snd (update_best rd (Z.of_nat (first + List.length vals)) mae loss_val m
             (fst (track rd first vals b)))).
Proof.
  induction vals as [|[[a l] s] vals IH]; intros first b.
  - simpl. rewrite Nat.add_0_r.
    destruct (update_best rd (Z.of_nat first) mae loss_val m b) as [b1 s1].
    simpl. rewrite app_nil_r. reflexivity.
  - simpl.
    destruct (update_best rd (Z.of_nat first) a l s b) as [b1 s1].
    rewrite (IH (S first) b1).
    destruct (track rd (S first) vals b1) as [b2 s2]. simpl.
    replace (first + S (List.length vals))%nat
      with (S (first + List.length vals)) by lia.
    rewrite app_assoc. reflexivity.
Qed.

Lemma first_min_intro (xs : list ExtR) (best : ExtR) (k : nat) :
  best <> PInf -> best <> NaN ->
  nth_error xs k = Some best ->
  (forall x, In x xs -> x = NaN \/ ext_le best x) ->
  (forall j x, (j < k)%nat -> nth_error xs j = Some x -> x = NaN \/ ext_lt best x) ->
  first_min xs best (Z.of_nat k).
Proof.
  intros H1 H2 Hk Hall Hfirst.
  destruct best; try congruence; simpl; exists k; auto.
Qed.

Lemma first_min_elim (xs : list ExtR) (best : ExtR) (epoch : Z) :
  first_min xs best epoch -> best <> PInf ->
  exists k : nat,
    epoch = Z.of_nat k /\
    nth_error xs k = Some best /\
    (forall x, In x xs -> x = NaN \/ ext_le best x) /\
    (forall j x, (j < k)%nat -> nth_error xs j = Some x -> x = NaN \/ ext_lt best x).
Proof.
  destruct best; simpl; intros H Hne; try congruence; try contradiction; exact H.
Qed.

Lemma first_min_not_nan (xs : list ExtR) (best : ExtR) (epoch : Z) :
  first_min xs best epoch -> best <> NaN.
Proof. intros H ->. exact H. Qed.

(** No value of the sequence is below the tracked one. *)
Lemma first_min_lower (xs : list ExtR) (best : ExtR) (epoch : Z) :
  first_min xs best epoch -> forall x, In x xs -> x = NaN \/ ext_le best x.
Proof.
  intros H x Hx. destruct best; simpl in H.
  - destruct H as [H _]. destruct (H x Hx) as [-> | ->];
      [right; exact I | left; reflexivity].
  - destruct H as (k & _ & _ & Hall & _). apply Hall. exact Hx.
  - destruct H as (k & _ & _ & Hall & _). apply Hall. exact Hx.
  - contradiction.
Qed.

(** One more value keeps [first_min]. *)
Lemma first_min_snoc (xs : list ExtR) (best : ExtR) (epoch : Z) (x : ExtR) :
  first_min xs best epoch ->
  first_min (xs ++ [x])
    (if ext_gt best x then x else best)
    (if ext_gt best x then Z.of_nat (List.length xs) else epoch).
Proof.
  intros Hinv. pose proof (@first_min_lower _ _ _ Hinv) as Hlow.
  pose proof (@first_min_not_nan _ _ _ Hinv) as Hnan.
  destruct (ext_gt best x) eqn:Hgt.
  - apply ext_gt_lt in Hgt.
    destruct (@ext_lt_shape _ _ Hgt) as (Hx1 & Hx2 & _).
    apply first_min_intro; try assumption.
    + rewrite nth_error_app2 by lia. rewrite Nat.sub_diag. reflexivity.
    + intros y Hy. apply in_app_or in Hy. destruct Hy as [Hy | [<- | []]].
      * destruct (Hlow y Hy) as [-> | Hle]; [left; reflexivity|].
        right. apply ext_lt_le. eapply ext_lt_le_trans; eassumption.
      * right. apply ext_le_refl. exact Hx2.
    + intros j y Hj Hy. rewrite nth_error_app1 in Hy by exact Hj.
      apply nth_error_In in Hy.
      destruct (Hlow y Hy) as [-> | Hle]; [left; reflexivity|].
      right. eapply ext_lt_le_trans; eassumption.
  - assert (Hx : x = NaN \/ ext_le best x) by (apply ext_gt_false_le; assumption).
    assert (Hpinf : best = PInf -> x = PInf \/ x = NaN).
    { intros ->. destruct x; simpl in Hgt; try discriminate; auto. }
    destruct best; simpl in Hinv |- *.
    + destruct Hinv as [Hall Hep]. split; [|exact Hep].
      intros y Hy. apply in_app_or in Hy. destruct Hy as [Hy | [<- | []]].
      * apply Hall. exact Hy.
      * apply Hpinf. reflexivity.
    + destruct Hinv as (k & He & Hk & Hall & Hfirst).
      assert (Hklt : (k < List.length xs)%nat).
      { apply nth_error_Some. rewrite Hk. discriminate. }
      exists k. split; [exact He|]. split; [|split].
      * rewrite nth_error_app1 by exact Hklt. exact Hk.
      * intros y Hy. apply in_app_or in Hy. destruct Hy as [Hy | [<- | []]].
        -- apply Hall. exact Hy.
        -- exact Hx.
      * intros j y Hj Hy. rewrite nth_error_app1 in Hy by lia.
        apply (Hfirst j y Hj Hy).
    + destruct Hinv as (k & He & Hk & Hall & Hfirst).
      assert (Hklt : (k < List.length xs)%nat).
      { apply nth_error_Some. rewrite Hk. discriminate. }
      exists k. split; [exact He|]. split; [|split].
      * rewrite nth_error_app1 by exact Hklt. exact Hk.
      * intros y Hy. apply in_app_or in Hy. destruct Hy as [Hy | [<- | []]].
        -- apply Hall. exact Hy.
        -- exact Hx.
      * intros j y Hj Hy. rewrite nth_error_app1 in Hy by lia.
        apply (Hfirst j y Hj Hy).
    + contradiction.
Qed.

Lemma ext_le_update (best x : ExtR) :
  best <> NaN -> ext_le (if ext_gt best x then x else best) best.
Proof.
  destruct best as [|b| |], x as [|y| |]; simpl; intros H;
    try congruence; try exact I; try lra.
  destruct (Rlt_dec y b); simpl; lra.
Qed.

Lemma track_first_min (rd : string) (vals : list (ExtR * ExtR * Model)) :
  first_min (maes vals)
    (best_val_mae (fst (track rd 0 vals best_init)))
    (best_mae_epoch (fst (track rd 0 vals best_init))) /\
  first_min (losses vals)
    (best_val_loss (fst (track rd 0 vals best_init)))
    (best_loss_epoch (fst (track rd 0 vals best_init))).
Proof.
  induction vals as [|[[mae loss_val] m] vals IH] using rev_ind.
  - simpl. split; (split; [intros x [] | reflexivity]).
  - rewrite track_snoc. cbn [fst Nat.add].
    destruct (update_best_spec rd (Z.of_nat (List.length vals)) mae loss_val m
                (fst (track rd 0 vals best_init)))
      as (H1 & H2 & H3 & H4 & _).
    rewrite H1, H2, H3, H4.
    destruct IH as [IHm IHl].
    unfold maes, losses in *. rewrite !map_app. simpl map.
    split.
    + rewrite <- (length_map (fun v : ExtR * ExtR * Model => fst (fst v)) vals).
      apply first_min_snoc. exact IHm.
    + rewrite <- (length_map (fun v : ExtR * ExtR * Model => snd (fst v)) vals).
      apply first_min_snoc. exact IHl.
Qed.

(** On a sequence of numbers, what a tracker holds is the minimum of the
    whole sequence. *)
Lemma first_min_min_of_all (xs : list ExtR) (best : ExtR) (epoch : Z) :
  first_min xs best epoch ->
  xs <> [] ->
  (forall x, In x xs -> x <> NaN /\ x <> PInf) ->
  min_of_all xs best epoch.
Proof.
  intros Hinv Hne Hnum.
  assert (Hbest : best <> PInf).
  { intros ->. simpl in Hinv. destruct Hinv as [Hall _].
    destruct xs as [|x xs]; [contradiction|].
    destruct (Hall x (or_introl eq_refl)) as [-> | ->];
      destruct (Hnum _ (or_introl eq_refl)); congruence. }
  destruct (@first_min_elim _ _ _ Hinv Hbest) as (k & He & Hk & Hall & Hfirst).
  exists k. split; [exact He|]. split; [exact Hk|]. split.
  - intros x Hx. destruct (Hall x Hx) as [-> | H]; [|exact H].
    destruct (Hnum _ Hx). congruence.
  - intros j x Hj Hx. destruct (Hfirst j x Hj Hx) as [-> | H]; [|exact H].
    apply nth_error_In in Hx. destruct (Hnum _ Hx). congruence.
Qed.

Lemma last_saved_app (path : string) (es es' : list (Event Model)) :
  last_saved path (es ++ es') =
  match last_saved path es' with
  | Some s => Some s
  | None => last_saved path es
  end.
Proof.
  induction es as [|e es IH]; simpl.
  - destruct (last_saved path es'); reflexivity.
  - rewrite IH. destruct (last_saved path es'); reflexivity.
Qed.

Lemma string_app_cancel (a b c : string) :
  (a ++ b)%string = (a ++ c)%string -> b = c.
Proof.
  induction a as [|ch a IH]; simpl; intros H.
  - exact H.
  - inversion H. apply IH. assumption.
Qed.

Lemma checkpoint_paths_differ (rd : string) : mae_path rd <> loss_path rd.
Proof.
  unfold mae_path, loss_path, path_join. simpl starts_with_sep.
  destruct ((String.length rd =? 0)%nat || ends_with_sep rd); intros H.
  - apply string_app_cancel in H. discriminate.
  - apply string_app_cancel in H. discriminate.
Qed.

Lemma last_saved_one (path p : string) (m : Model) :
  last_saved path [Save p m] = if String.eqb p path then Some m else None.
Proof. reflexivity. Qed.

(** One more epoch keeps [checkpoint_of], whatever is saved to [other]. *)
Lemma checkpoint_of_snoc (path other : string) (saves : list (Event Model))
    (ms : list Model) (best : ExtR) (epoch : Z) (x : ExtR) (m : Model)
    (mine_first : bool) (other_saved : bool) :
  path <> other ->
  (best <> PInf -> (Z.to_nat epoch < List.length ms)%nat) ->
  checkpoint_of path saves ms best epoch ->
  let mine := if ext_gt best x then [Save path m] else [] in
  let others := if other_saved then [Save other m] else [] in
  checkpoint_of path
    (saves ++ (if mine_first then mine ++ others else others ++ mine))
    (ms ++ [m])
    (if ext_gt best x then x else best)
    (if ext_gt best x then Z.of_nat (List.length ms) else epoch).
Proof.
  intros Hdiff Hbound Hinv mine others.
  assert (Hother : last_saved path others = None).
  { unfold others. destruct other_saved; [|reflexivity].
    rewrite last_saved_one.
    destruct (String.eqb other path) eqn:E; [|reflexivity].
    apply String.eqb_eq in E. congruence. }
  assert (Hboth : last_saved path
                    (saves ++ (if mine_first then mine ++ others else others ++ mine))
                  = match last_saved path mine with
                    | Some s => Some s
                    | None => last_saved path saves
                    end).
  { rewrite last_saved_app. destruct mine_first; rewrite last_saved_app.
    - rewrite Hother. reflexivity.
    - destruct (last_saved path mine); [reflexivity|]. rewrite Hother. reflexivity. }
  unfold mine in Hboth. clear Hother. subst mine others.
  destruct (ext_gt best x) eqn:Hgt.
  - apply ext_gt_lt in Hgt. destruct (@ext_lt_shape _ _ Hgt) as (Hx1 & Hx2 & _).
    assert (Hgoal : exists state_dict,
               last_saved path
                 (saves ++ (if mine_first
                            then [Save path m]
                                 ++ (if other_saved then [Save other m] else [])
                            else (if other_saved then [Save other m] else [])
                                 ++ [Save path m]))
               = Some state_dict /\
               nth_error (ms ++ [m]) (Z.to_nat (Z.of_nat (List.length ms)))
               = Some state_dict).
    { rewrite Hboth. simpl. rewrite String.eqb_refl.
      exists m. split; [reflexivity|].
      rewrite Nat2Z.id. rewrite nth_error_app2 by lia.
      rewrite Nat.sub_diag. reflexivity. }
    destruct x; try congruence; exact Hgoal.
  - destruct best; unfold checkpoint_of in *; try contradiction;
      rewrite Hboth; simpl.
    + exact Hinv.
    + destruct Hinv as [s [Hs Hn]].
      exists s. split; [exact Hs|].
      rewrite nth_error_app1; [exact Hn|]. apply Hbound. discriminate.
    + destruct Hinv as [s [Hs Hn]].
      exists s. split; [exact Hs|].
      rewrite nth_error_app1; [exact Hn|]. apply Hbound. discriminate.
Qed.

Lemma first_min_bound (xs : list ExtR) (best : ExtR) (epoch : Z) :
  first_min xs best epoch ->
  best <> PInf -> (Z.to_nat epoch < List.length xs)%nat.
Proof.
  intros H Hne. destruct (@first_min_elim _ _ _ H Hne) as [k [-> [Hk _]]].
  rewrite Nat2Z.id. apply nth_error_Some. rewrite Hk. discriminate.
Qed.

Lemma track_checkpoints (rd : string) (vals : list (ExtR * ExtR * Model)) :
  checkpoint_of (mae_path rd) (snd (track rd 0 vals best_init)) (models vals)
    (best_val_mae (fst (track rd 0 vals best_init)))
    (best_mae_epoch (fst (track rd 0 vals best_init))) /\
  checkpoint_of (loss_path rd) (snd (track rd 0 vals best_init)) (models vals)
    (best_val_loss (fst (track rd 0 vals best_init)))
    (best_loss_epoch (fst (track rd 0 vals best_init))).
Proof.
  induction vals as [|[[mae loss_val] m] vals IH] using rev_ind.
  - simpl. split; reflexivity.
  - destruct (track_first_min rd vals) as [Fm Fl].
    rewrite track_snoc. cbn [fst snd Nat.add].
    destruct (update_best_spec rd (Z.of_nat (List.length vals)) mae loss_val m
                (fst (track rd 0 vals best_init)))
      as (H1 & H2 & H3 & H4 & H5).
    rewrite H1, H2, H3, H4, H5.
    destruct IH as [IHm IHl].
    unfold models in *. rewrite map_app. simpl map.
    rewrite <- (length_map (fun v : ExtR * ExtR * Model => snd v) vals).
    split.
    + apply (@checkpoint_of_snoc (mae_path rd) (loss_path rd) _ _ _ _ mae m true
               (ext_gt (best_val_loss (fst (track rd 0 vals best_init))) loss_val)).
      * apply checkpoint_paths_differ.
      * intros Hne. rewrite length_map.
        rewrite <- (length_map (fun v : ExtR * ExtR * Model => fst (fst v)) vals).
        unfold maes in Fm. eapply first_min_bound; [exact Fm | exact Hne].
      * exact IHm.
    + apply (@checkpoint_of_snoc (loss_path rd) (mae_path rd) _ _ _ _ loss_val m
               false
               (ext_gt (best_val_mae (fst (track rd 0 vals best_init))) mae)).
      * intros H. apply (@checkpoint_paths_differ rd). symmetry. exact H.
      * intros Hne. rewrite length_map.
        rewrite <- (length_map (fun v : ExtR * ExtR * Model => snd (fst v)) vals).
        unfold losses in Fl. eapply first_min_bound; [exact Fl | exact Hne].
      * exact IHl.
Qed.

(** *** The trackers in the epoch loop of [main] *)

Lemma saves_of_app (es es' : list (Event Model)) :
  saves_of (es ++ es') = saves_of es ++ saves_of es'.
Proof. unfold saves_of. apply filter_app. Qed.

Lemma saves_of_logged (rd : string) (lines : list LogMsg) :
  saves_of (logged rd lines) = [].
Proof.
  induction lines as [|line lines IH]; [reflexivity|]. simpl. exact IH.
Qed.

Lemma saves_of_update_best (rd : string) (epoch : Z) (mae loss_val : ExtR)
    (m : Model) (b : Best) :
  saves_of (snd (update_best rd epoch mae loss_val m b))
  = snd (update_best rd epoch mae loss_val m b).
Proof.
  destruct (update_best_spec rd epoch mae loss_val m b) as (_ & _ & _ & _ & ->).
  destruct (ext_gt _ mae); destruct (ext_gt _ loss_val); reflexivity.
Qed.

(** The epoch loop of [main] is [track] over the metrics of its epochs:
    the values that [evaluate] returned epoch after epoch are what the
    trackers were compared with, and the saves of the run are those of
    [track]. *)
Lemma epoch_loop_tracks (loaders : Loaders) (rd : string) :
  forall (count : nat) (st st' : RunState) (w w' : World),
  epoch_loop loaders rd 0 count st w = (Ok st', w') ->
  exists vals,
    List.length vals = count /\
    (forall k v, nth_error vals k = Some v -> epoch_metrics loaders rd st w k v) /\
    best st' = fst (track rd 0 vals (best st)) /\
    saves_of (effects w') = saves_of (effects w) ++ snd (track rd 0 vals (best st)).
Proof.
  induction count as [|count IH]; intros st st' w w' H.
  - simpl in H. unfold ret in H. inversion H; subst.
    exists []. split; [reflexivity|]. split; [|split].
    + intros [|k] v Hk; discriminate Hk.
    + reflexivity.
    + simpl. rewrite app_nil_r. reflexivity.
  - destruct (epoch_loop_snoc loaders rd count 0 st w H) as [st1 [w1 [Hl Hb]]].
    destruct (IH st st1 w w1 Hl) as (vals & Hlen & Hvals & Hbest & Hsaves).
    apply epoch_body_inv in Hb. simpl Nat.add in Hb.
    destruct Hb as (tr & w2 & ml & vl & sl & lv & ma & mt & Htrain & Hev & _ & _ & _
                    & Hb & _ & Heff).
    exists (vals ++ [(Fin ma, Fin lv, model tr)]). split; [|split; [|split]].
    + rewrite length_app. simpl. lia.
    + intros k v Hk.
      destruct (Nat.lt_ge_cases k (List.length vals)) as [Hlt | Hge].
      * rewrite nth_error_app1 in Hk by exact Hlt. apply Hvals. exact Hk.
      * assert (Hkc : k = count).
        { assert (k < List.length (vals ++ [(Fin ma, Fin lv, model tr)]))%nat
            by (apply nth_error_Some; rewrite Hk; discriminate).
          rewrite length_app in H0. simpl in H0. lia. }
        subst k. rewrite nth_error_app2 in Hk by lia.
        rewrite Hlen, Nat.sub_diag in Hk. simpl in Hk. injection Hk as <-.
        exists st1, w1, tr, w2, ml, vl, sl, lv, ma.
        split; [exact Hl|]. split; [exact Htrain|]. split; [exact Hev|].
        reflexivity.
    + rewrite track_snoc. cbn [fst Nat.add]. rewrite Hb, Hbest, Hlen.
      reflexivity.
    + rewrite track_snoc. cbn [snd Nat.add]. rewrite Heff.
      destruct (@train_effects _ _ _ _ _ _ _ _ _ _ Htrain) as [lines Hlines].
      rewrite Hlines. rewrite !saves_of_app, saves_of_logged, saves_of_update_best.
      simpl. rewrite app_nil_r, Hsaves, Hbest, Hlen, <- app_assoc. reflexivity.
Qed.

(** C3: the trackers start at infinity and epoch -1.  After any sequence of
    epochs each one holds the minimum of those values of its own metric
    that are below infinity and not NaN, and the first epoch that attained
    it, and its checkpoint file holds the model of that epoch; while no
    such value has been seen, the tracker is still at infinity and -1 and
    its file does not exist.  On a non-empty sequence of numbers this is
    the minimum of the whole sequence and the first index attaining it.
    One more epoch changes a tracker, and saves its file, exactly when the
    new value wins the comparison with the tracked one, so a tracked value
    never increases; the two trackers move independently and may end on
    different epochs.  And the epoch loop of [main] is [track] over the
    values that [evaluate] returned in its epochs: its trackers and its
    saves are those of [track]. *)
Theorem best_trackers_follow_the_minimum (rd : string)
    (vals : list (ExtR * ExtR * Model)) :
  let run := track rd 0 vals best_init in
  let b := fst run in
  fst (track rd 0 [] best_init) =
    {| best_val_mae := PInf; best_val_loss := PInf;
       best_mae_epoch := -1; best_loss_epoch := -1 |} /\
  first_min (maes vals) (best_val_mae b) (best_mae_epoch b) /\
  first_min (losses vals) (best_val_loss b) (best_loss_epoch b) /\
  checkpoint_of (mae_path rd) (snd run) (models vals)
    (best_val_mae b) (best_mae_epoch b) /\
  checkpoint_of (loss_path rd) (snd run) (models vals)
    (best_val_loss b) (best_loss_epoch b) /\
  (vals <> [] ->
   (forall x, In x (maes vals) -> x <> NaN /\ x <> PInf) ->
   min_of_all (maes vals) (best_val_mae b) (best_mae_epoch b)) /\
  (vals <> [] ->
   (forall x, In x (losses vals) -> x <> NaN /\ x <> PInf) ->
   min_of_all (losses vals) (best_val_loss b) (best_loss_epoch b)) /\
  (forall mae loss_val m,
     let run' := track rd 0 (vals ++ [(mae, loss_val, m)]) best_init in
     let b' := fst run' in
     let better_mae := ext_gt (best_val_mae b) mae in
     let better_loss := ext_gt (best_val_loss b) loss_val in
     (better_mae = true <-> ext_lt mae (best_val_mae b)) /\
     (better_loss = true <-> ext_lt loss_val (best_val_loss b)) /\
     best_val_mae b' = (if better_mae then mae else best_val_mae b) /\
     best_mae_epoch b' =
       (if better_mae then Z.of_nat (List.length vals) else best_mae_epoch b) /\
     best_val_loss b' = (if better_loss then loss_val else best_val_loss b) /\
     best_loss_epoch b' =
       (if better_loss then Z.of_nat (List.length vals) else best_loss_epoch b) /\
     snd run' =
       snd run
       ++ (if better_mae then [Save (mae_path rd) m] else [])
       ++ (if better_loss then [Save (loss_path rd) m] else []) /\
     ext_le (best_val_mae b') (best_val_mae b) /\
     ext_le (best_val_loss b') (best_val_loss b)) /\
  (forall m0 m1 : Model,
     let b2 := fst (track rd 0 [(Fin 2, Fin 1, m0); (Fin 1, Fin 2, m1)] best_init) in
     best_mae_epoch b2 = 1%Z /\ best_loss_epoch b2 = 0%Z) /\
  (forall loaders count st w st' w',
     epoch_loop loaders rd 0 count st w = (Ok st', w') ->
     exists epochs,
       List.length epochs = count /\
       (forall k v, nth_error epochs k = Some v ->
          epoch_metrics loaders rd st w k v) /\
       best st' = fst (track rd 0 epochs (best st)) /\
       saves_of (effects w') =
         saves_of (effects w) ++ snd (track rd 0 epochs (best st))).
Proof.
  intros run b.
  destruct (track_first_min rd vals) as [Fm Fl].
  split; [reflexivity|].
  split; [exact Fm|].
  split; [exact Fl|].
  split; [apply track_checkpoints|].
  split; [apply track_checkpoints|].
  split.
  { intros Hne Hnum. apply first_min_min_of_all; [exact Fm | | exact Hnum].
    unfold maes. intros H. apply map_eq_nil in H. contradiction. }
  split.
  { intros Hne Hnum. apply first_min_min_of_all; [exact Fl | | exact Hnum].
    unfold losses. intros H. apply map_eq_nil in H. contradiction. }
  split.
  - intros mae loss_val m run' b' better_mae better_loss.
    split; [apply ext_gt_lt|]. split; [apply ext_gt_lt|].
    unfold b', run'. rewrite track_snoc. cbn [fst snd Nat.add].
    destruct (update_best_spec rd (Z.of_nat (List.length vals)) mae loss_val m
                (fst (track rd 0 vals best_init)))
      as (H1 & H2 & H3 & H4 & H5).
    rewrite H1, H2, H3, H4, H5.
    repeat split; try reflexivity.
    + apply ext_le_update. eapply first_min_not_nan. exact Fm.
    + apply ext_le_update. eapply first_min_not_nan. exact Fl.
  - split.
    + intros m0 m1. unfold track, update_best, best_init. cbn.
      destruct (Rlt_dec 1 2) as [_ | H]; [|lra]. cbn.
      destruct (Rlt_dec 2 1) as [H | _]; [lra|]. cbn.
      split; reflexivity.
    + intros loaders count st w st' w' Hrun.
      eapply epoch_loop_tracks. exact Hrun.
Qed.

(** ** The leave-one-subject-out split *)

Lemma int_of_string_raises (s : string) (e : exn) :
  int_of_string s = Raise e -> e = ValueError.
Proof.
  unfold int_of_string.
  destruct (match strip (list_ascii_of_string s) with
            | [] => None
            | c :: s' =>
                if (nat_of_ascii c =? 45)%nat then option_map Z.opp (digits s')
                else if (nat_of_ascii c =? 43)%nat then digits s'
                else digits (strip (list_ascii_of_string s))
            end) as [z|]; intros H; [discriminate|].
  inversion H. reflexivity.
Qed.

Lemma split_by_subject_spec (dir : string) (leave_sub : Z) (names : list string) :
  Forall well_named names ->
  forall train_val_list test_list,
  split_by_subject dir leave_sub names train_val_list test_list =
  Ok (train_val_list ++ map (path_join dir) (filter (in_pool leave_sub) names),
      test_list ++ map (path_join dir) (filter (in_test leave_sub) names)).
Proof.
  induction 1 as [|fn names [subject Hfn] Hnames IH]; intros tv te.
  - simpl. rewrite !app_nil_r. reflexivity.
  - simpl. unfold in_pool, in_test. rewrite Hfn. simpl.
    destruct (subject =? leave_sub)%Z; simpl; rewrite IH.
    + rewrite <- app_assoc. reflexivity.
    + rewrite <- app_assoc. reflexivity.
Qed.

Lemma split_by_subject_raises (dir : string) (leave_sub : Z) (names : list string) :
  ~ Forall well_named names ->
  forall train_val_list test_list,
  split_by_subject dir leave_sub names train_val_list test_list = Raise ValueError.
Proof.
  induction names as [|fn names IH]; intros Hbad tv te.
  - exfalso. apply Hbad. constructor.
  - simpl. destruct (int_of_string (substring 0 3 fn)) as [subject | e] eqn:Hfn.
    + simpl.
      assert (Hrest : ~ Forall well_named names).
      { intros Hall. apply Hbad. constructor; [exists subject; exact Hfn | exact Hall]. }
      destruct (subject =? leave_sub)%Z; apply IH; exact Hrest.
    + simpl. rewrite (int_of_string_raises _ Hfn). reflexivity.
Qed.

Lemma split_by_index_spec (index_val : list nat) (l : list string) :
  forall (i : nat) (train_list val_list : list string),
  split_by_index index_val i l train_list val_list =
  (train_list ++ unpicked index_val i l, val_list ++ picked index_val i l).
Proof.
  induction l as [|fp rest IH]; intros i tr va.
  - simpl. rewrite !app_nil_r. reflexivity.
  - simpl. destruct (existsb (Nat.eqb i) index_val); rewrite IH.
    + rewrite <- app_assoc. reflexivity.
    + rewrite <- app_assoc. reflexivity.
Qed.

Lemma picked_unpicked_perm (index_val : list nat) (l : list string) :
  forall i, Permutation (unpicked index_val i l ++ picked index_val i l) l.
Proof.
  induction l as [|fp rest IH]; intros i; simpl.
  - constructor.
  - destruct (existsb (Nat.eqb i) index_val).
    + apply Permutation_sym. apply Permutation_cons_app.
      apply Permutation_sym. apply IH.
    + simpl. constructor. apply IH.
Qed.

Lemma existsb_eqb_In (i : nat) (index_val : list nat) :
  existsb (Nat.eqb i) index_val = true <-> In i index_val.
Proof.
  rewrite existsb_exists. split.
  - intros [x [Hx Heq]]. apply Nat.eqb_eq in Heq. subst. exact Hx.
  - intros Hin. exists i. split; [exact Hin | apply Nat.eqb_refl].
Qed.

Lemma picked_length (index_val : list nat) (l : list string) :
  forall i,
  List.length (picked index_val i l) =
  List.length (filter (fun j => existsb (Nat.eqb j) index_val)
                 (seq i (List.length l))).
Proof.
  induction l as [|fp rest IH]; intros i; simpl.
  - reflexivity.
  - destruct (existsb (Nat.eqb i) index_val); simpl; rewrite IH; reflexivity.
Qed.

(** Distinct positions inside the list pick as many entries as there are
    positions. *)
Lemma picked_count (index_val : list nat) (l : list string) :
  NoDup index_val ->
  Forall (fun i => (i < List.length l)%nat) index_val ->
  List.length (picked index_val 0 l) = List.length index_val.
Proof.
  intros Hnd Hlt. rewrite picked_length.
  apply Permutation_length. apply NoDup_Permutation.
  - apply NoDup_filter. apply seq_NoDup.
  - exact Hnd.
  - intros j. rewrite filter_In, in_seq, existsb_eqb_In. split.
    + intros [_ Hin]. exact Hin.
    + intros Hin. split; [|exact Hin].
      rewrite Forall_forall in Hlt. specialize (Hlt j Hin). lia.
Qed.

Lemma picked_In (index_val : list nat) (l : list string) (fp : string) :
  forall i,
  In fp (picked index_val i l) <->
  exists j, nth_error l j = Some fp /\ In (i + j)%nat index_val.
Proof.
  induction l as [|x rest IH]; intros i; simpl.
  - split; [contradiction | intros [[|j] [H _]]; discriminate].
  - destruct (existsb (Nat.eqb i) index_val) eqn:E.
    + simpl. rewrite IH. split.
      * intros [<- | [j [Hj Hin]]].
        -- exists 0%nat. split; [reflexivity|].
           rewrite Nat.add_0_r. apply existsb_eqb_In. exact E.
        -- exists (S j). split; [exact Hj|].
           replace (i + S j)%nat with (S i + j)%nat by lia. exact Hin.
      * intros [[|j] [Hj Hin]].
        -- left. simpl in Hj. inversion Hj. reflexivity.
        -- right. exists j. split; [exact Hj|].
           replace (S i + j)%nat with (i + S j)%nat by lia. exact Hin.
    + rewrite IH. split.
      * intros [j [Hj Hin]]. exists (S j). split; [exact Hj|].
        replace (i + S j)%nat with (S i + j)%nat by lia. exact Hin.
      * intros [[|j] [Hj Hin]].
        -- rewrite Nat.add_0_r in Hin. apply existsb_eqb_In in Hin. congruence.
        -- exists j. split; [exact Hj|].
           replace (S i + j)%nat with (i + S j)%nat by lia. exact Hin.
Qed.

Lemma unpicked_In (index_val : list nat) (l : list string) (fp : string) :
  forall i,
  In fp (unpicked index_val i l) <->
  exists j, nth_error l j = Some fp /\ ~ In (i + j)%nat index_val.
Proof.
  induction l as [|x rest IH]; intros i; simpl.
  - split; [contradiction | intros [[|j] [H _]]; discriminate].
  - destruct (existsb (Nat.eqb i) index_val) eqn:E.
    + rewrite IH. split.
      * intros [j [Hj Hin]]. exists (S j). split; [exact Hj|].
        replace (i + S j)%nat with (S i + j)%nat by lia. exact Hin.
      * intros [[|j] [Hj Hin]].
        -- rewrite Nat.add_0_r in Hin. apply existsb_eqb_In in E. contradiction.
        -- exists j. split; [exact Hj|].
           replace (S i + j)%nat with (i + S j)%nat by lia. exact Hin.
    + simpl. rewrite IH. split.
      * intros [<- | [j [Hj Hin]]].
        -- exists 0%nat. split; [reflexivity|].
           rewrite Nat.add_0_r. intros Hin. apply existsb_eqb_In in Hin. congruence.
        -- exists (S j). split; [exact Hj|].
           replace (i + S j)%nat with (S i + j)%nat by lia. exact Hin.
      * intros [[|j] [Hj Hin]].
        -- left. simpl in Hj. inversion Hj. reflexivity.
        -- right. exists j. split; [exact Hj|].
           replace (S i + j)%nat with (i + S j)%nat by lia. exact Hin.
Qed.

(** [int(num * 0.1)] is the integer quotient by ten. *)
Lemma floor_tenth (n : nat) :
  floor (INR n * VALIDATION_RATE) = Z.of_nat (n / 10).
Proof.
  unfold floor, VALIDATION_RATE.
  pose proof (Nat.div_mod_eq n 10) as Hdm.
  pose proof (Nat.mod_upper_bound n 10 ltac:(lia)) as Hr.
  set (q := (n / 10)%nat) in *. set (r := (n mod 10)%nat) in *.
  assert (Hn : INR n = (10 * INR q + INR r)%R).
  { rewrite Hdm. rewrite plus_INR, mult_INR. simpl INR. lra. }
  assert (Hr0 : (0 <= INR r)%R) by apply pos_INR.
  assert (Hr1 : (INR r < 10)%R).
  { apply lt_INR in Hr. simpl INR in Hr. lra. }
  assert (Hup : (Z.of_nat q + 1)%Z = up (INR n * (1 / 10))).
  { apply tech_up.
    - rewrite plus_IZR, <- INR_IZR_INZ. rewrite Hn. lra.
    - rewrite plus_IZR, <- INR_IZR_INZ. rewrite Hn. lra. }
  rewrite <- Hup. lia.
Qed.

Lemma int_of_float_tenth (n : nat) :
  int_of_float (INR n * VALIDATION_RATE) = Z.of_nat (n / 10).
Proof.
  unfold int_of_float.
  destruct (Rle_dec 0 (INR n * VALIDATION_RATE)) as [_ | Hneg].
  - apply floor_tenth.
  - exfalso. apply Hneg. unfold VALIDATION_RATE.
    pose proof (pos_INR n). lra.
Qed.

(** [get_image_list] on a listing of readable names, in one equation. *)
Lemma get_image_list_run (dir : string) (leave_sub : Z) (w : World) :
  Forall well_named (os_listdir dir) ->
  let pool := map (path_join dir) (filter (in_pool leave_sub) (os_listdir dir)) in
  let test_list := map (path_join dir) (filter (in_test leave_sub) (os_listdir dir)) in
  let n := List.length pool in
  get_image_list dir leave_sub VALIDATION_RATE w =
  (Ok (unpicked (fst (draw (np_random w) n (n / 10))) 0 pool,
       picked (fst (draw (np_random w) n (n / 10))) 0 pool,
       test_list),
   {| np_random := snd (draw (np_random w) n (n / 10)); effects := effects w |}).
Proof.
  intros Hnames pool test_list n.
  unfold get_image_list, bind, lift.
  rewrite (split_by_subject_spec dir leave_sub Hnames). simpl app.
  fold pool. fold test_list. fold n.
  unfold np_random_choice. rewrite int_of_float_tenth.
  assert (Hsize : ((Z.of_nat (n / 10) <? 0) || (Z.of_nat n <? Z.of_nat (n / 10)))%Z
                  = false).
  { apply orb_false_iff. split.
    - apply Z.ltb_ge. lia.
    - apply Z.ltb_ge. apply Nat2Z.inj_le.
      apply Nat.Div0.div_le_upper_bound. lia. }
  rewrite Hsize. rewrite Nat2Z.id.
  destruct (draw (np_random w) n (n / 10)) as [index_val g]. simpl.
  rewrite split_by_index_spec. reflexivity.
Qed.

Lemma get_image_list_raises (dir : string) (leave_sub : Z) (rate : R) (w : World) :
  ~ Forall well_named (os_listdir dir) ->
  get_image_list dir leave_sub rate w = (Raise ValueError, w).
Proof.
  intros Hbad. unfold get_image_list, bind, lift.
  rewrite (split_by_subject_raises dir leave_sub Hbad). reflexivity.
Qed.

Lemma filter_pool_test_perm (leave_sub : Z) (names : list string) :
  Permutation
    (filter (in_pool leave_sub) names ++ filter (in_test leave_sub) names) names.
Proof.
  induction names as [|fn names IH]; simpl.
  - constructor.
  - unfold in_pool at 1. destruct (in_test leave_sub fn); simpl.
    + apply Permutation_sym. apply Permutation_cons_app.
      apply Permutation_sym. exact IH.
    + constructor. exact IH.
Qed.

(** C4 (as amended): on a listing whose names all start with a readable
    subject id, [get_image_list] returns three lists that partition the
    files: the test list holds exactly the files of the leave-out subject;
    from the pool of the [n] other files, [floor (n * 0.1)] distinct
    positions are drawn, the files at those positions form the validation
    list and the other pool files the training list. *)
Theorem get_image_list_partitions (dir : string) (leave_sub : Z) (w : World) :
  draw_contract ->
  Forall well_named (os_listdir dir) ->
  let names := os_listdir dir in
  let pool := map (path_join dir) (filter (in_pool leave_sub) names) in
  let n := List.length pool in
  exists train_list val_list test_list index_val w',
    get_image_list dir leave_sub VALIDATION_RATE w
    = (Ok (train_list, val_list, test_list), w') /\
    effects w' = effects w /\
    test_list = map (path_join dir) (filter (in_test leave_sub) names) /\
    index_val =
      fst (draw (np_random w) n (Z.to_nat (floor (INR n * VALIDATION_RATE)))) /\
    floor (INR n * VALIDATION_RATE) = Z.of_nat (n / 10) /\
    NoDup index_val /\
    List.length index_val = (n / 10)%nat /\
    Forall (fun i => (i < n)%nat) index_val /\
    (forall fp, In fp val_list <->
                exists j, nth_error pool j = Some fp /\ In j index_val) /\
    (forall fp, In fp train_list <->
                exists j, nth_error pool j = Some fp /\ ~ In j index_val) /\
    List.length val_list = (n / 10)%nat /\
    Permutation (train_list ++ val_list) pool /\
    Permutation (train_list ++ val_list ++ test_list) (map (path_join dir) names) /\
    (NoDup (map (path_join dir) names) ->
     NoDup (train_list ++ val_list ++ test_list)).
Proof.
  intros Hdraw Hnames names pool n.
  pose proof (@get_image_list_run dir leave_sub w Hnames) as Hrun.
  cbv zeta in Hrun. fold names in Hrun. fold pool in Hrun. fold n in Hrun.
  assert (Hle : (n / 10 <= n)%nat) by (apply Nat.Div0.div_le_upper_bound; lia).
  destruct (Hdraw (np_random w) n (n / 10)%nat Hle) as (Hnd & Hlen & Hlt).
  set (index_val := fst (draw (np_random w) n (n / 10))) in *.
  assert (Hperm : Permutation
                    (unpicked index_val 0 pool ++ picked index_val 0 pool) pool)
    by apply picked_unpicked_perm.
  assert (Hall : Permutation
                   (unpicked index_val 0 pool ++ picked index_val 0 pool
                    ++ map (path_join dir) (filter (in_test leave_sub) names))
                   (map (path_join dir) names)).
  { rewrite app_assoc.
    eapply Permutation_trans.
    - apply Permutation_app_tail. exact Hperm.
    - unfold pool. rewrite <- map_app. apply Permutation_map.
      apply filter_pool_test_perm. }
  exists (unpicked index_val 0 pool), (picked index_val 0 pool),
    (map (path_join dir) (filter (in_test leave_sub) names)), index_val,
    {| np_random := snd (draw (np_random w) n (n / 10)); effects := effects w |}.
  split; [exact Hrun|].
  split; [reflexivity|].
  split; [reflexivity|].
  split; [rewrite floor_tenth, Nat2Z.id; reflexivity|].
  split; [apply floor_tenth|].
  split; [exact Hnd|].
  split; [exact Hlen|].
  split; [exact Hlt|].
  split; [intros fp; apply (picked_In index_val pool fp 0)|].
  split; [intros fp; apply (unpicked_In index_val pool fp 0)|].
  split; [rewrite picked_count; assumption|].
  split; [exact Hperm|].
  split; [exact Hall|].
  intros Hnodup. eapply Permutation_NoDup.
  - apply Permutation_sym. exact Hall.
  - exact Hnodup.
Qed.

Lemma get_image_list_same_random_state (dir : string) (leave_sub : Z)
    (rate : R) (w1 w2 : World) :
  np_random w1 = np_random w2 ->
  fst (get_image_list dir leave_sub rate w1)
  = fst (get_image_list dir leave_sub rate w2) /\
  np_random (snd (get_image_list dir leave_sub rate w1))
  = np_random (snd (get_image_list dir leave_sub rate w2)).
Proof.
  intros Hg. unfold get_image_list, bind, lift.
  destruct (split_by_subject dir leave_sub (os_listdir dir) [] [])
    as [[train_val_list test_list] | e].
  - unfold np_random_choice. rewrite Hg.
    destruct ((_ <? 0)%Z || _).
    + split; [reflexivity | exact Hg].
    + destruct (draw (np_random w2) _ _) as [index_val g].
      destruct (split_by_index index_val 0 train_val_list [] []).
      split; reflexivity.
  - split; [reflexivity | exact Hg].
Qed.

(** C5 (as amended): from the same generator state the split of a given
    listing for a given leave-out subject is the same, whatever else the
    two runs did; and for two leave-out subjects each test list holds
    exactly the files of its own subject, every other file being in the
    train/validation pool of that split. *)
Theorem split_is_deterministic_and_test_follows_subject
    (dir : string) (s1 s2 : Z) (w1 w2 : World) :
  Forall well_named (os_listdir dir) ->
  np_random w1 = np_random w2 ->
  fst (get_image_list dir s1 VALIDATION_RATE w1)
  = fst (get_image_list dir s1 VALIDATION_RATE w2) /\
  np_random (snd (get_image_list dir s1 VALIDATION_RATE w1))
  = np_random (snd (get_image_list dir s1 VALIDATION_RATE w2)) /\
  exists train1 val1 test1 w1' train2 val2 test2 w2',
    get_image_list dir s1 VALIDATION_RATE w1 = (Ok (train1, val1, test1), w1') /\
    get_image_list dir s2 VALIDATION_RATE w2 = (Ok (train2, val2, test2), w2') /\
    test1 = map (path_join dir) (filter (in_test s1) (os_listdir dir)) /\
    test2 = map (path_join dir) (filter (in_test s2) (os_listdir dir)) /\
    Permutation (train1 ++ val1)
      (map (path_join dir) (filter (in_pool s1) (os_listdir dir))) /\
    Permutation (train2 ++ val2)
      (map (path_join dir) (filter (in_pool s2) (os_listdir dir))) /\
    (forall fn, In fn (os_listdir dir) ->
                in_test s1 fn = false -> in_test s2 fn = false ->
                In (path_join dir fn) (train1 ++ val1) /\
                In (path_join dir fn) (train2 ++ val2)).
Proof.
  intros Hnames Hg.
  destruct (@get_image_list_same_random_state dir s1 VALIDATION_RATE w1 w2 Hg)
    as [Hfst Hsnd].
  split; [exact Hfst|]. split; [exact Hsnd|].
  pose proof (@get_image_list_run dir s1 w1 Hnames) as H1.
  pose proof (@get_image_list_run dir s2 w2 Hnames) as H2.
  cbv zeta in H1, H2.
  do 8 eexists.
  split; [exact H1|]. split; [exact H2|].
  split; [reflexivity|]. split; [reflexivity|].
  split; [apply picked_unpicked_perm|]. split; [apply picked_unpicked_perm|].
  intros fn Hin Ht1 Ht2. split.
  - eapply Permutation_in.
    + apply Permutation_sym. apply picked_unpicked_perm.
    + apply in_map. apply filter_In. split; [exact Hin|].
      unfold in_pool. rewrite Ht1. reflexivity.
  - eapply Permutation_in.
    + apply Permutation_sym. apply picked_unpicked_perm.
    + apply in_map. apply filter_In. split; [exact Hin|].
      unfold in_pool. rewrite Ht2. reflexivity.
Qed.


(** * Further properties of the loops *)

(** ** [evaluate] and [test] *)



Lemma evaluate_inv (loader : list (Batch Image)) (m : Model)
    (c1 : MeanVarianceLoss) (c2 : Tensor2 -> list Z -> R)
    (r1 r2 r3 r4 r5 : R) :
  evaluate loader m c1 c2 = Ok (r1, r2, r3, r4, r5) ->
  let t := fold_left (evaluate_batch m c1 c2) loader totals_zero in
  let n := INR (List.length loader) in
  loader <> [] /\
  r1 = (mean_loss_val t / n)%R /\ r2 = (variance_loss_val t / n)%R /\
  r3 = (softmax_loss_val t / n)%R /\ r4 = (loss_val t / n)%R /\
  r5 = (mae t / n)%R.
Proof.
  unfold evaluate. destruct loader as [|sample rest].
  - simpl. discriminate.
  - intros H. rewrite !true_div_ok in H by discriminate. simpl in H.
    inversion H; subst. repeat split; try reflexivity. discriminate.
Qed.


Lemma evaluate_fold_mae (m : Model) (c1 : MeanVarianceLoss)
    (c2 : Tensor2 -> list Z -> R) (loader : list (Batch Image)) :
  forall t : Totals,
  mae (fold_left (evaluate_batch m c1 c2) loader t)
  = fold_left (test_batch m) loader (mae t).
Proof.
  induction loader as [|sample rest IH]; intros t.
  - reflexivity.
  - simpl. rewrite IH. reflexivity.
Qed.

(** X2: [test] computes the MAE that [evaluate] computes: on the same
    loader and model, the fifth value of [evaluate] is the value of [test],
    and both raise on the empty loader. *)
Theorem evaluate_mae_is_test_mae (loader : list (Batch Image)) (m : Model)
    (c1 : MeanVarianceLoss) (c2 : Tensor2 -> list Z -> R) :
  rbind (evaluate loader m c1 c2) (fun r => Ok (snd r)) = test loader m.
Proof.
  unfold evaluate, test. destruct loader as [|sample rest].
  - reflexivity.
  - rewrite !true_div_ok by discriminate. cbn [rbind snd].
    rewrite (evaluate_fold_mae m c1 c2 (sample :: rest) totals_zero).
    reflexivity.
Qed.

(** ** [train] *)

(** One batch, entered with the running sums at zero: one line, about this
    batch alone, and the running sums are back at zero. *)
Lemma train_batch_from_zero (c1 : MeanVarianceLoss) (c2 : Tensor2 -> list Z -> R)
    (flags : string -> bool) (epoch : Z) (rd : string) (i : nat)
    (sample : Batch Image) (l : Learner) (w : World) :
  exists l',
    train_batch c1 c2 flags epoch rd i sample (l, running_zero) w
    = (Ok (l', running_zero),
       {| np_random := np_random w;
          effects := effects w
                     ++ logged rd [train_line c1 c2 epoch i (model l) sample] |}).
Proof.
  unfold train_batch.
  destruct (backward_step flags (optimizer l) (model l) (images sample)
              (objective c1 c2 (labels sample))) as [m' o'].
  unfold interval. rewrite Nat.mod_1_r, Nat.eqb_refl.
  unfold bind, emit, ret. cbn [np_random effects running_loss running_mean_loss
    running_variance_loss running_softmax_loss running_zero].
  assert (Hdiv : forall x : R, ((0 + x) / INR 1 = x)%R).
  { intros x. simpl INR. unfold Rdiv. lra. }
  rewrite !Hdiv. eexists. unfold logged, train_line. simpl flat_map.
  rewrite <- app_assoc. reflexivity.
Qed.

(** The loop of [train] over batches that the network accepts: one line per
    batch, the [k]-th about batch [k] and the model as the batches before
    it left it. *)
Lemma train_loop_from_zero (c1 : MeanVarianceLoss) (c2 : Tensor2 -> list Z -> R)
    (flags : string -> bool) (epoch : Z) (rd : string)
    (loader : list (Batch Image)) :
  accepted loader ->
  forall (i : nat) (l : Learner) (w : World),
  exists l' lines,
    train_loop c1 c2 flags epoch rd i loader (l, running_zero) w
    = (Ok (l', running_zero),
       {| np_random := np_random w; effects := effects w ++ logged rd lines |}) /\
    List.length lines = List.length loader /\
    forall k sample, nth_error loader k = Some sample ->
      exists l_k w_k,
        train_loop c1 c2 flags epoch rd i (firstn k loader) (l, running_zero) w
        = (Ok (l_k, running_zero), w_k) /\
        nth_error lines k
        = Some (train_line c1 c2 epoch (i + k) (model l_k) sample).
Proof.
  induction 1 as [|sample0 rest Hs Hrest IH]; intros i l w.
  - exists l, []. simpl. unfold ret. rewrite app_nil_r.
    split; [destruct w; reflexivity|]. split; [reflexivity|].
    intros [|k] sample H; discriminate H.
  - rewrite train_loop_cons, Hs.
    destruct (train_batch_from_zero c1 c2 flags epoch rd i sample0 l w)
      as (l1 & Hb).
    rewrite Hb.
    destruct (IH (S i) l1
                {| np_random := np_random w;
                   effects := effects w
                              ++ logged rd [train_line c1 c2 epoch i (model l)
                                              sample0] |})
      as (l2 & lines & Hl & Hlen & Hlines).
    exists l2, (train_line c1 c2 epoch i (model l) sample0 :: lines).
    split; [|split].
    + rewrite Hl. cbn [np_random effects]. rewrite <- app_assoc.
      rewrite <- logged_app. reflexivity.
    + simpl. rewrite Hlen. reflexivity.
    + intros [|k] sample H.
      * simpl in H. injection H as <-. exists l, w.
        rewrite Nat.add_0_r. split; reflexivity.
      * simpl in H. destruct (Hlines k sample H) as (l_k & w_k & Hk & Hline).
        exists l_k, w_k. split.
        -- cbn [firstn]. rewrite train_loop_cons, Hs, Hb. exact Hk.
        -- replace (i + S k)%nat with (S i + k)%nat by lia. exact Hline.
Qed.

(** The loop of [train] stops at the first batch of one image. *)
Lemma train_loop_raises (c1 : MeanVarianceLoss) (c2 : Tensor2 -> list Z -> R)
    (flags : string -> bool) (epoch : Z) (rd : string)
    (before after : list (Batch Image)) (sample : Batch Image) :
  accepted before ->
  List.length (images sample) = 1%nat ->
  forall (i : nat) (l : Learner) (w : World),
  exists lines,
    train_loop c1 c2 flags epoch rd i (before ++ sample :: after)
      (l, running_zero) w
    = (Raise ValueError,
       {| np_random := np_random w; effects := effects w ++ logged rd lines |}) /\
    List.length lines = List.length before.
Proof.
  intros Hacc Hone. induction Hacc as [|sample0 rest Hs Hrest IH]; intros i l w.
  - exists []. cbn [app]. rewrite train_loop_cons.
    unfold batch_norm_check. rewrite Hone. simpl. rewrite app_nil_r.
    split; [destruct w; reflexivity | reflexivity].
  - cbn [app]. rewrite train_loop_cons, Hs.
    destruct (train_batch_from_zero c1 c2 flags epoch rd i sample0 l w)
      as (l1 & Hb).
    rewrite Hb.
    destruct (IH (S i) l1
                {| np_random := np_random w;
                   effects := effects w
                              ++ logged rd [train_line c1 c2 epoch i (model l)
                                              sample0] |})
      as (lines & Hl & Hlen).
    exists (train_line c1 c2 epoch i (model l) sample0 :: lines). split.
    + rewrite Hl. cbn [np_random effects]. rewrite <- app_assoc.
      rewrite <- logged_app. reflexivity.
    + simpl. rewrite Hlen. reflexivity.
Qed.

(** X4: on a loader whose batches the network accepts in training mode,
    [train] returns and leaves the numpy generator alone; for [n] batches it
    prints and appends exactly [n] lines, in batch order, and the [k]-th
    line carries the epoch, the index [k] and the mean, variance and softmax
    loss of batch [k] alone, computed on the model as the [k] batches before
    it left it, with their sum as its loss column: the running sums start
    again from zero after every batch.  On a loader that holds a batch of
    one image, [train] raises [ValueError] at the first such batch, having
    logged the batches before it. *)
Theorem train_logs_every_batch (train_loader : list (Batch Image))
    (l : Learner) (flags : string -> bool) (c1 : MeanVarianceLoss)
    (c2 : Tensor2 -> list Z -> R) (epoch : Z) (rd : string) (w : World) :
  (accepted train_loader ->
   exists l' lines,
     train train_loader l flags c1 c2 epoch rd w
     = (Ok l',
        {| np_random := np_random w; effects := effects w ++ logged rd lines |}) /\
     List.length lines = List.length train_loader /\
     forall k sample, nth_error train_loader k = Some sample ->
       exists l_k w_k,
         train (firstn k train_loader) l flags c1 c2 epoch rd w = (Ok l_k, w_k) /\
         nth_error lines k = Some (train_line c1 c2 epoch k (model l_k) sample)) /\
  (forall k m sample,
     exists ml vl sl,
       train_line c1 c2 epoch k m sample
       = TrainLine epoch k ml vl sl (ml + vl + sl) /\
       ml = mean_loss (train_losses c1 c2 (model_call true m (images sample))
                         (labels sample)) /\
       vl = variance_loss (train_losses c1 c2 (model_call true m (images sample))
                             (labels sample)) /\
       sl = softmax_loss (train_losses c1 c2 (model_call true m (images sample))
                            (labels sample))) /\
  (forall before sample after,
     train_loader = before ++ sample :: after ->
     accepted before ->
     List.length (images sample) = 1%nat ->
     exists lines,
       train train_loader l flags c1 c2 epoch rd w
       = (Raise ValueError,
          {| np_random := np_random w; effects := effects w ++ logged rd lines |}) /\
       List.length lines = List.length before).
Proof.
  split; [|split].
  - intros Hacc. unfold train, bind.
    destruct (train_loop_from_zero c1 c2 flags epoch rd Hacc 0 l w)
      as (l' & lines & Hl & Hlen & Hlines).
    rewrite Hl. unfold ret. exists l', lines.
    split; [reflexivity|]. split; [exact Hlen|].
    intros k sample Hk. destruct (Hlines k sample Hk) as (l_k & w_k & Hrun & Hline).
    exists l_k, w_k. rewrite Hrun. split; [reflexivity | exact Hline].
  - intros k m sample. unfold train_line. do 3 eexists.
    split; [|split; [|split]]; try reflexivity.
  - intros before sample after -> Hacc Hone. unfold train, bind.
    destruct (@train_loop_raises c1 c2 flags epoch rd before after sample Hacc Hone
                0%nat l w)
      as (lines & Hl & Hlen).
    rewrite Hl. exists lines. split; [reflexivity | exact Hlen].
Qed.

(** ** The decoded age *)












(** ** What a run adds to the world *)

Lemma only_adds_ret {A : Type} (P : Event Model -> Prop) (a : A) :
  only_adds P (ret a).
Proof. intros w. exists []. rewrite app_nil_r. split; [reflexivity | constructor]. Qed.

Lemma only_adds_raise {A : Type} (P : Event Model -> Prop) (e : exn) :
  only_adds P (raise (A := A) e).
Proof. intros w. exists []. rewrite app_nil_r. split; [reflexivity | constructor]. Qed.

Lemma only_adds_lift {A : Type} (P : Event Model -> Prop) (r : result A) :
  only_adds P (lift r).
Proof. intros w. exists []. rewrite app_nil_r. split; [reflexivity | constructor]. Qed.

Lemma only_adds_emit (P : Event Model -> Prop) (e : Event Model) :
  P e -> only_adds P (emit e).
Proof.
  intros He w. exists [e]. split; [reflexivity|]. constructor; [exact He | constructor].
Qed.

Lemma only_adds_bind {A B : Type} (P : Event Model -> Prop) (c : M A)
    (k : A -> M B) :
  only_adds P c -> (forall a, only_adds P (k a)) -> only_adds P (bind c k).
Proof.
  intros Hc Hk w. unfold bind.
  destruct (Hc w) as [es1 [H1 F1]].
  destruct (c w) as [[a | e] w1]; simpl in H1.
  - destruct (Hk a w1) as [es2 [H2 F2]].
    exists (es1 ++ es2). split.
    + rewrite H2, H1, app_assoc. reflexivity.
    + apply Forall_app. split; assumption.
  - exists es1. split; [exact H1 | exact F1].
Qed.

Lemma only_adds_emit_all (P : Event Model -> Prop) (es : list (Event Model)) :
  Forall P es -> only_adds P (emit_all es).
Proof.
  intros Hes w. rewrite emit_all_run. exists es. split; [reflexivity | exact Hes].
Qed.

Lemma only_adds_choice (P : Event Model -> Prop) (a : nat) (size : Z) :
  only_adds P (np_random_choice a size).
Proof.
  intros w. exists []. rewrite app_nil_r. split; [|constructor].
  unfold np_random_choice.
  destruct ((size <? 0)%Z || (Z.of_nat a <? size)%Z); [reflexivity|].
  destruct (draw (np_random w) a (Z.to_nat size)). reflexivity.
Qed.

(** [get_image_list] has no effect but on the generator. *)
Lemma only_adds_get_image_list (P : Event Model -> Prop) (dir : string)
    (leave_sub : Z) (rate : R) :
  only_adds P (get_image_list dir leave_sub rate).
Proof.
  unfold get_image_list.
  apply only_adds_bind; [apply only_adds_lift|]. intros [tv te].
  apply only_adds_bind; [apply only_adds_choice|]. intros index_val.
  destruct (split_by_index index_val 0 tv [] []). apply only_adds_ret.
Qed.

Lemma only_adds_train (rd : string) (loader : list (Batch Image)) (l : Learner)
    (flags : string -> bool) (c1 : MeanVarianceLoss)
    (c2 : Tensor2 -> list Z -> R) (epoch : Z) :
  only_adds (writes_inside rd) (train loader l flags c1 c2 epoch rd).
Proof.
  unfold train. apply only_adds_bind; [|intros st; apply only_adds_ret].
  generalize 0%nat (l, running_zero).
  induction loader as [|sample rest IH]; intros i st.
  - apply only_adds_ret.
  - cbn [train_loop]. apply only_adds_bind; [apply only_adds_lift|]. intros _.
    apply only_adds_bind; [|intros st'; apply IH].
    unfold train_batch. destruct st as [lr run].
    destruct (backward_step _ _ _ _ _) as [m' o'].
    destruct (_ =? 0)%nat; [|apply only_adds_ret].
    apply only_adds_bind; [apply only_adds_emit; exact I|]. intros _.
    apply only_adds_bind; [apply only_adds_emit; reflexivity|]. intros _.
    apply only_adds_ret.
Qed.

Lemma update_best_saves_inside (rd : string) (epoch : Z) (mae loss_val : ExtR)
    (m : Model) (b : Best) :
  Forall (writes_inside rd) (snd (update_best rd epoch mae loss_val m b)).
Proof.
  destruct (update_best_spec rd epoch mae loss_val m b) as (_ & _ & _ & _ & ->).
  apply Forall_app. split.
  - destruct (ext_gt _ _); [|constructor].
    constructor; [left; reflexivity | constructor].
  - destruct (ext_gt _ _); [|constructor].
    constructor; [right; reflexivity | constructor].
Qed.

Lemma only_adds_epoch_body (loaders : Loaders) (rd : string) (n : nat)
    (st : RunState) :
  only_adds (writes_inside rd) (epoch_body loaders rd n st).
Proof.
  unfold epoch_body.
  apply only_adds_bind; [apply only_adds_train|]. intros trained.
  apply only_adds_bind; [apply only_adds_lift|].
  intros [[[[ml vl] sl] lv] ma].
  apply only_adds_bind; [apply only_adds_lift|]. intros mt.
  apply only_adds_bind; [apply only_adds_emit; exact I|]. intros _.
  apply only_adds_bind; [apply only_adds_emit; exact I|]. intros _.
  apply only_adds_bind; [apply only_adds_emit; reflexivity|]. intros _.
  apply only_adds_bind; [apply only_adds_emit; reflexivity|]. intros _.
  pose proof (update_best_saves_inside rd (Z.of_nat n) (Fin ma) (Fin lv)
                (model trained) (best st)) as Hsaves.
  destruct (update_best rd (Z.of_nat n) (Fin ma) (Fin lv) (model trained) (best st))
    as [b saves].
  apply only_adds_bind; [apply only_adds_emit_all; exact Hsaves|]. intros _.
  apply only_adds_ret.
Qed.

Lemma only_adds_epoch_loop (loaders : Loaders) (rd : string) (count : nat) :
  forall (first : nat) (st : RunState),
  only_adds (writes_inside rd) (epoch_loop loaders rd first count st).
Proof.
  induction count as [|count IH]; intros first st.
  - apply only_adds_ret.
  - cbn [epoch_loop]. apply only_adds_bind; [apply only_adds_epoch_body|].
    intros st'. apply IH.
Qed.

(** X7: every [os.mkdir], every append to a file and every [torch.save]
    that [main.py] itself issues in a run with a result directory targets
    that directory.  Whatever the outcome of [main], returning or raising,
    each effect it adds is a printed line, the creation of the result
    directory, an append to its [log] file, or a save to one of its two
    checkpoint files.  (What torchvision may write to its own cache while
    [ResNet34] fetches the pretrained weights is not a call of the script
    and is not covered.) *)
Theorem main_own_writes_target_the_result_directory (args : Args) (rd : string)
    (w : World) :
  result_directory args = Some rd ->
  exists es,
    effects (snd (main args w)) = effects w ++ es /\
    Forall (writes_inside rd) es.
Proof.
  intros Hrd. revert w. change (only_adds (writes_inside rd) (main args)).
  unfold main. rewrite Hrd. unfold path_exists.
  apply only_adds_bind; [apply only_adds_ret|]. intros present.
  apply only_adds_bind.
  { destruct present; [apply only_adds_ret|].
    apply only_adds_emit. reflexivity. }
  intros _.
  apply only_adds_bind; [apply only_adds_get_image_list|].
  intros [[train_list val_list] test_list].
  apply only_adds_bind; [apply only_adds_epoch_loop|]. intros st.
  apply only_adds_bind; [apply only_adds_emit; reflexivity|]. intros _.
  apply only_adds_emit. exact I.
Qed.

(** ** An epoch on an empty loader *)

Lemma train_run (loader : list (Batch Image)) (l : Learner)
    (flags : string -> bool) (c1 : MeanVarianceLoss)
    (c2 : Tensor2 -> list Z -> R) (epoch : Z) (rd : string) (w : World) :
  accepted loader ->
  exists l' lines,
    train loader l flags c1 c2 epoch rd w
    = (Ok l',
       {| np_random := np_random w; effects := effects w ++ logged rd lines |}) /\
    List.length lines = List.length loader.
Proof.
  intros Hacc. unfold train, bind.
  destruct (train_loop_from_zero c1 c2 flags epoch rd Hacc 0 l w)
    as (l' & lines & Hl & Hlen & _).
  rewrite Hl. unfold ret. exists l', lines. split; [reflexivity | exact Hlen].
Qed.

Lemma evaluate_raises (loader : list (Batch Image)) (m : Model)
    (c1 : MeanVarianceLoss) (c2 : Tensor2 -> list Z -> R) (e : exn) :
  evaluate loader m c1 c2 = Raise e -> e = ZeroDivisionError.
Proof.
  destruct loader as [|sample rest].
  - simpl. intros H. inversion H. reflexivity.
  - intros H. destruct (@evaluate_nonempty (sample :: rest) m c1 c2) as [v Hv];
      [discriminate | congruence].
Qed.

(** X5: when the validation loader or the test loader of an epoch is
    empty, and the network accepts every training batch of the epoch (none
    holds exactly one image), the epoch raises [ZeroDivisionError] only
    after the whole training pass has run and been logged: the world it
    leaves holds one log line per training batch and nothing else, no epoch
    line and no checkpoint. *)
Theorem epoch_fails_after_training_on_an_empty_loader (loaders : Loaders)
    (rd : string) (n : nat) (st : RunState) (w : World) :
  accepted (train_loader loaders n) ->
  val_loader loaders n = [] \/ test_loader loaders n = [] ->
  exists lines,
    epoch_body loaders rd n st w
    = (Raise ZeroDivisionError,
       {| np_random := np_random w; effects := effects w ++ logged rd lines |}) /\
    List.length lines = List.length (train_loader loaders n).
Proof.
  intros Hacc Hempty. unfold epoch_body, bind, lift.
  destruct (@train_run (train_loader loaders n)
              {| model := model (learner st);
                 optimizer := scheduler_step (optimizer (learner st)) (Z.of_nat n) |}
              (unfreeze_at (Z.of_nat n) (requires_grad st))
              main_criterion1 main_criterion2 (Z.of_nat n) rd w Hacc)
    as (trained & lines & Htrain & Hlen).
  rewrite Htrain. exists lines. split; [|exact Hlen].
  destruct (evaluate (val_loader loaders n) (model trained) main_criterion1
              main_criterion2) as [[[[[ml vl] sl] lv] ma] | e] eqn:Hev.
  - destruct Hempty as [Hval | Htest].
    + rewrite Hval in Hev. discriminate Hev.
    + rewrite Htest. reflexivity.
  - rewrite (evaluate_raises _ _ _ _ Hev). reflexivity.
Qed.

(** ** A whole run *)

(** [main] with a result directory, step by step. *)
Lemma main_unfold (args : Args) (rd : string) (w : World) :
  result_directory args = Some rd ->
  main args w =
  match get_image_list (image_directory args) (leave_subject args)
          VALIDATION_RATE (after_mkdir rd w) with
  | (Ok (train_list, val_list, test_list), w1) =>
      match epoch_loop (make_loaders (batch_size args) train_list val_list test_list)
              rd 0 (Z.to_nat (epoch args)) (initial_state args) w1 with
      | (Ok st, w2) =>
          (Ok tt,
           {| np_random := np_random w2;
              effects := effects w2
                         ++ [Append (path_join rd "log") (final_line (best st));
                             Print (final_line (best st))] |})
      | (Raise e, w2) => (Raise e, w2)
      end
  | (Raise e, w1) => (Raise e, w1)
  end.
Proof.
  intros Hrd. unfold main, after_mkdir. rewrite Hrd.
  unfold bind at 1. unfold path_exists, ret at 1.
  unfold bind at 1.
  assert (Hmk : (if os_path_exists rd then ret tt else emit (Mkdir rd)) w
                = (Ok tt,
                   if os_path_exists rd then w
                   else {| np_random := np_random w;
                           effects := effects w ++ [Mkdir rd] |})).
  { destruct (os_path_exists rd); reflexivity. }
  rewrite Hmk. unfold bind at 1.
  destruct (get_image_list _ _ _ _) as [[[[tr va] te] | e] w1]; [|reflexivity].
  unfold bind at 1.
  destruct (epoch_loop _ _ _ _ _ w1) as [[st | e] w2]; [|reflexivity].
  unfold bind, emit, final_line. cbn [np_random effects].
  rewrite <- app_assoc. reflexivity.
Qed.


(** ** The epoch loop from start to end *)

Lemma printed_epochs_app (es es' : list (Event Model)) :
  printed_epochs (es ++ es') = printed_epochs es ++ printed_epochs es'.
Proof. unfold printed_epochs. apply flat_map_app. Qed.

Lemma printed_epochs_train (rd : string) (lines : list LogMsg) :
  Forall (fun line => exists epoch i ml vl sl lo,
            line = TrainLine epoch i ml vl sl lo) lines ->
  printed_epochs (logged rd lines) = [].
Proof.
  induction 1 as [|line lines (epoch & i & ml & vl & sl & lo & ->) _ IH].
  - reflexivity.
  - simpl. exact IH.
Qed.

Lemma printed_epochs_saves (rd : string) (epoch : Z) (mae loss_val : ExtR)
    (m : Model) (b : Best) :
  printed_epochs (snd (update_best rd epoch mae loss_val m b)) = [].
Proof.
  destruct (update_best_spec rd epoch mae loss_val m b) as (_ & _ & _ & _ & ->).
  destruct (ext_gt _ mae); destruct (ext_gt _ loss_val); reflexivity.
Qed.

Lemma evaluate_ok_nonempty (loader : list (Batch Image)) (m : Model)
    (c1 : MeanVarianceLoss) (c2 : Tensor2 -> list Z -> R) (v : R * R * R * R * R) :
  evaluate loader m c1 c2 = Ok v -> loader <> [].
Proof. intros H ->. discriminate H. Qed.

Lemma test_ok_nonempty (loader : list (Batch Image)) (m : Model) (v : R) :
  test loader m = Ok v -> loader <> [].
Proof. intros H ->. discriminate H. Qed.

(** One completed epoch: what it needed, and what it printed. *)
Lemma epoch_body_ok (loaders : Loaders) (rd : string) (n : nat)
    (st st' : RunState) (w w' : World) :
  epoch_body loaders rd n st w = (Ok st', w') ->
  accepted (train_loader loaders n) /\
  val_loader loaders n <> [] /\
  test_loader loaders n <> [] /\
  np_random w' = np_random w /\
  exists es,
    effects w' = effects w ++ es /\ printed_epochs es = [Z.of_nat n].
Proof.
  intros Hb. apply epoch_body_inv in Hb.
  destruct Hb as (tr & w1 & ml & vl & sl & lv & ma & mt & Htrain & Hev & Hte & _ & _
                  & _ & Hg & Heff).
  pose proof (train_ok_accepted _ _ _ _ _ _ _ _ Htrain) as Hacc.
  destruct (@train_returns (train_loader loaders n)
              {| model := model (learner st);
                 optimizer := scheduler_step (optimizer (learner st)) (Z.of_nat n) |}
              (unfreeze_at (Z.of_nat n) (requires_grad st))
              main_criterion1 main_criterion2 (Z.of_nat n) rd w Hacc)
    as (tr' & w1' & Htrain' & Hg1).
  rewrite Htrain' in Htrain. injection Htrain as _ <-.
  destruct (train_lines_only _ _ _ _ _ _ _ _ Htrain') as (lines & Hlines & Hall).
  split; [exact Hacc|].
  split; [eapply evaluate_ok_nonempty; exact Hev|].
  split; [eapply test_ok_nonempty; exact Hte|].
  split; [congruence|].
  eexists. split.
  - rewrite Heff, Hlines. rewrite <- !app_assoc. reflexivity.
  - rewrite !printed_epochs_app, (printed_epochs_train rd Hall),
      printed_epochs_saves. reflexivity.
Qed.

Lemma epoch_loop_returns_on (loaders : Loaders) (rd : string) :
  forall (count first : nat) (st : RunState) (w : World),
  (forall n, (first <= n < first + count)%nat ->
     accepted (train_loader loaders n) /\
     val_loader loaders n <> [] /\
     test_loader loaders n <> []) ->
  exists st' w', epoch_loop loaders rd first count st w = (Ok st', w').
Proof.
  induction count as [|count IH]; intros first st w Hall.
  - simpl. unfold ret. exists st, w. reflexivity.
  - simpl. unfold bind.
    destruct (Hall first ltac:(lia)) as (Hacc & Hval & Htest).
    destruct (epoch_body_returns loaders rd first st w Hacc Hval Htest)
      as [st1 [w1 H1]].
    rewrite H1. apply IH. intros n Hn. apply Hall. lia.
Qed.

(** X6: the epoch loop of [main] completes its [count] epochs exactly when,
    in each of them, the network accepts every training batch (none holds
    exactly one image) and the validation and the test loader each yield a
    batch.  It then has printed one validation line per epoch, for the
    epochs 0 to [count - 1] in this order, and has left the numpy generator
    alone. *)
Theorem epoch_loop_completes_on_usable_loaders (loaders : Loaders)
    (rd : string) (count : nat) (st : RunState) (w : World) :
  ((exists st' w', epoch_loop loaders rd 0 count st w = (Ok st', w')) <->
   (forall n, (n < count)%nat ->
      accepted (train_loader loaders n) /\
      val_loader loaders n <> [] /\
      test_loader loaders n <> [])) /\
  (forall st' w',
     epoch_loop loaders rd 0 count st w = (Ok st', w') ->
     np_random w' = np_random w /\
     exists es,
       effects w' = effects w ++ es /\
       printed_epochs es = map Z.of_nat (seq 0 count)).
Proof.
  assert (Hok : forall c st' w',
             epoch_loop loaders rd 0 c st w = (Ok st', w') ->
             (forall n, (n < c)%nat ->
                accepted (train_loader loaders n) /\
                val_loader loaders n <> [] /\
                test_loader loaders n <> []) /\
             np_random w' = np_random w /\
             exists es,
               effects w' = effects w ++ es /\
               printed_epochs es = map Z.of_nat (seq 0 c)).
  { induction c as [|c IH]; intros st' w' Hrun.
    - simpl in Hrun. unfold ret in Hrun. injection Hrun as <- <-.
      split; [intros n Hn; lia|]. split; [reflexivity|].
      exists []. rewrite app_nil_r. split; reflexivity.
    - destruct (epoch_loop_snoc loaders rd c 0 st w Hrun) as [st1 [w1 [Hl Hb]]].
      destruct (IH st1 w1 Hl) as (Hall & Hg & es & Hes & Hpr).
      simpl Nat.add in Hb. apply epoch_body_ok in Hb.
      destruct Hb as (Hacc & Hval & Htest & Hg' & es' & Hes' & Hpr').
      split; [|split].
      + intros n Hn. destruct (Nat.eq_dec n c) as [-> | Hne].
        * repeat split; assumption.
        * apply Hall. lia.
      + congruence.
      + exists (es ++ es'). split.
        * rewrite Hes', Hes, app_assoc. reflexivity.
        * rewrite printed_epochs_app, Hpr, Hpr', seq_S, map_app. reflexivity. }
  split; [split|].
  - intros (st' & w' & Hrun). apply (Hok count st' w' Hrun).
  - intros Hall. apply epoch_loop_returns_on. intros n Hn. apply Hall. lia.
  - intros st' w' Hrun. apply (Hok count st' w' Hrun).
Qed.

(** ** More on the split *)

Lemma picked_nothing (l : list string) :
  forall i, picked [] i l = [] /\ unpicked [] i l = l.
Proof.
  induction l as [|fp rest IH]; intros i; simpl.
  - split; reflexivity.
  - destruct (IH (S i)) as [-> ->]. split; reflexivity.
Qed.

(** X8: when fewer than ten files are left after the test files are set
    aside, no validation file is drawn: the validation list is empty and
    the training list is the whole pool, in directory order. *)
Theorem small_pool_has_no_validation_file (dir : string) (leave_sub : Z)
    (w : World) :
  draw_contract ->
  Forall well_named (os_listdir dir) ->
  (List.length (filter (in_pool leave_sub) (os_listdir dir)) < 10)%nat ->
  exists g,
    get_image_list dir leave_sub VALIDATION_RATE w =
    (Ok (map (path_join dir) (filter (in_pool leave_sub) (os_listdir dir)),
         [],
         map (path_join dir) (filter (in_test leave_sub) (os_listdir dir))),
     {| np_random := g; effects := effects w |}).
Proof.
  intros Hdraw Hnames Hsmall.
  rewrite (@get_image_list_run dir leave_sub w Hnames). cbv zeta.
  rewrite length_map. rewrite (Nat.div_small _ 10 Hsmall).
  destruct (Hdraw (np_random w)
              (List.length (filter (in_pool leave_sub) (os_listdir dir))) 0%nat
              ltac:(lia)) as (_ & Hlen & _).
  destruct (draw (np_random w) _ 0%nat) as [index_val g]. simpl in Hlen |- *.
  apply length_zero_iff_nil in Hlen. subst index_val.
  destruct (picked_nothing
              (map (path_join dir) (filter (in_pool leave_sub) (os_listdir dir))) 0)
    as [-> ->].
  exists g. reflexivity.
Qed.

(** X9: [get_image_list] fails exactly when a file name has no readable
    subject id.  With readable names it returns and adds no effect; with
    an unreadable one it raises [ValueError], whatever the validation
    rate, before anything is drawn from the generator. *)
Theorem get_image_list_fails_exactly_on_unreadable_names (dir : string)
    (leave_sub : Z) (w : World) :
  (Forall well_named (os_listdir dir) ->
   exists lists w',
     get_image_list dir leave_sub VALIDATION_RATE w = (Ok lists, w') /\
     effects w' = effects w) /\
  (~ Forall well_named (os_listdir dir) ->
   forall rate, get_image_list dir leave_sub rate w = (Raise ValueError, w)).
Proof.
  split.
  - intros Hnames.
    pose proof (@get_image_list_run dir leave_sub w Hnames) as Hrun.
    cbv zeta in Hrun. rewrite Hrun. do 2 eexists. split; reflexivity.
  - intros Hbad rate. unfold get_image_list, bind, lift.
    rewrite (split_by_subject_raises dir leave_sub Hbad). reflexivity.
Qed.

(** *** Which subject ids a file name can carry *)

Lemma length_lstrip (s : list ascii) : (List.length (lstrip s) <= List.length s)%nat.
Proof.
  induction s as [|c s IH]; simpl.
  - lia.
  - destruct (is_space c); simpl; lia.
Qed.

Lemma length_strip (s : list ascii) : (List.length (strip s) <= List.length s)%nat.
Proof.
  unfold strip. rewrite length_rev.
  eapply Nat.le_trans; [apply length_lstrip|].
  rewrite length_rev. apply length_lstrip.
Qed.

Lemma digit_of_range (c : ascii) (d : Z) :
  digit_of c = Some d -> (0 <= d <= 9)%Z.
Proof.
  unfold digit_of.
  destruct ((48 <=? nat_of_ascii c) && (nat_of_ascii c <=? 57))%nat eqn:E;
    [|discriminate].
  apply andb_true_iff in E. destruct E as [E1 E2].
  apply Nat.leb_le in E1. apply Nat.leb_le in E2.
  intros H. injection H as <-. lia.
Qed.

Lemma digits_tail_bound (s : list ascii) :
  forall (acc : Z) (after_digit : bool) (z : Z),
  (0 <= acc)%Z ->
  digits_tail acc after_digit s = Some z ->
  (0 <= z < (acc + 1) * 10 ^ Z.of_nat (List.length s))%Z.
Proof.
  induction s as [|c s IH]; intros acc after_digit z Hacc H.
  - simpl in H. destruct after_digit; [|discriminate].
    injection H as <-. simpl. lia.
  - cbn [digits_tail] in H.
    change (List.length (c :: s)) with (S (List.length s)).
    rewrite Nat2Z.inj_succ, Z.pow_succ_r by lia.
    assert (Hpow : (0 < 10 ^ Z.of_nat (List.length s))%Z)
      by (apply Z.pow_pos_nonneg; lia).
    destruct (digit_of c) as [d|] eqn:Hd.
    + apply digit_of_range in Hd.
      apply IH in H; [|lia]. nia.
    + destruct ((nat_of_ascii c =? 95)%nat && after_digit); [|discriminate].
      apply IH in H; [|lia]. nia.
Qed.

Lemma digits_bound (s : list ascii) (z : Z) :
  digits s = Some z -> (0 <= z < 10 ^ Z.of_nat (List.length s))%Z.
Proof.
  destruct s as [|c s]; [discriminate|]. unfold digits.
  destruct (digit_of c) as [d|] eqn:Hd; [|discriminate].
  intros H. apply digit_of_range in Hd.
  apply digits_tail_bound in H; [|lia].
  change (List.length (c :: s)) with (S (List.length s)).
  rewrite Nat2Z.inj_succ, Z.pow_succ_r by lia.
  assert (Hpow : (0 < 10 ^ Z.of_nat (List.length s))%Z)
    by (apply Z.pow_pos_nonneg; lia).
  nia.
Qed.

Lemma pow10_le (n m : nat) :
  (n <= m)%nat -> (10 ^ Z.of_nat n <= 10 ^ Z.of_nat m)%Z.
Proof. intros H. apply Z.pow_le_mono_r; lia. Qed.

Lemma length_list_ascii_of_string (s : string) :
  List.length (list_ascii_of_string s) = String.length s.
Proof. induction s as [|c s IH]; simpl; [reflexivity | rewrite IH; reflexivity]. Qed.

(** A string of at most three characters reads as an integer between -99
    and 999. *)
Lemma int_of_string_three (s : string) (z : Z) :
  (String.length s <= 3)%nat ->
  int_of_string s = Ok z -> (-99 <= z <= 999)%Z.
Proof.
  intros Hlen. unfold int_of_string.
  pose proof (length_strip (list_ascii_of_string s)) as Hstrip.
  rewrite length_list_ascii_of_string in Hstrip.
  set (body := strip (list_ascii_of_string s)) in *.
  assert (Hbody : (List.length body <= 3)%nat) by lia.
  assert (Hall : forall l v, (List.length l <= 3)%nat -> digits l = Some v ->
                             (0 <= v <= 999)%Z).
  { intros l v Hl Hv. apply digits_bound in Hv.
    pose proof (pow10_le Hl) as Hp. change (10 ^ Z.of_nat 3)%Z with 1000%Z in Hp. lia. }
  assert (Htwo : forall l v, (List.length l <= 2)%nat -> digits l = Some v ->
                             (0 <= v <= 99)%Z).
  { intros l v Hl Hv. apply digits_bound in Hv.
    pose proof (pow10_le Hl) as Hp. change (10 ^ Z.of_nat 2)%Z with 100%Z in Hp. lia. }
  destruct body as [|c s'] eqn:Eb; [discriminate|].
  simpl in Hbody.
  destruct (nat_of_ascii c =? 45)%nat.
  - destruct (digits s') as [v|] eqn:Hv; simpl; [|discriminate].
    intros H. injection H as <-. apply Htwo in Hv; lia.
  - destruct (nat_of_ascii c =? 43)%nat.
    + destruct (digits s') as [v|] eqn:Hv; [|discriminate].
      intros H. injection H as <-. apply Htwo in Hv; lia.
    + destruct (digits (c :: s')) as [v|] eqn:Hv; [|discriminate].
      intros H. injection H as <-. apply Hall in Hv; [lia | simpl; lia].
Qed.

Lemma length_substring_prefix (n : nat) (s : string) :
  (String.length (substring 0 n s) <= n)%nat.
Proof.
  revert s. induction n as [|n IH]; intros s.
  - destruct s; simpl; lia.
  - destruct s as [|c s]; simpl; [lia|]. specialize (IH s). lia.
Qed.

Lemma in_test_out_of_reach (leave_sub : Z) (fn : string) :
  (leave_sub < -99 \/ 999 < leave_sub)%Z -> in_test leave_sub fn = false.
Proof.
  intros Hout. unfold in_test.
  destruct (int_of_string (substring 0 3 fn)) as [subject | e] eqn:H;
    [|reflexivity].
  apply int_of_string_three in H; [|apply length_substring_prefix].
  apply Z.eqb_neq. lia.
Qed.

Lemma filter_out_of_reach (leave_sub : Z) (names : list string) :
  (leave_sub < -99 \/ 999 < leave_sub)%Z ->
  filter (in_test leave_sub) names = [].
Proof.
  intros Hout. induction names as [|fn names IH]; [reflexivity|].
  simpl. rewrite (in_test_out_of_reach fn Hout). exact IH.
Qed.

Lemma split_by_subject_test (dir : string) (leave_sub : Z) (names : list string) :
  forall tv te tv' te',
  split_by_subject dir leave_sub names tv te = Ok (tv', te') ->
  te' = te ++ map (path_join dir) (filter (in_test leave_sub) names).
Proof.
  induction names as [|fn names IH]; intros tv te tv' te' H.
  - simpl in H. injection H as _ <-. rewrite app_nil_r. reflexivity.
  - cbn [split_by_subject] in H. cbn [filter]. unfold in_test at 1.
    destruct (int_of_string (substring 0 3 fn)) as [subject | e];
      [|discriminate H].
    cbn [rbind] in H. destruct (subject =? leave_sub)%Z.
    + apply IH in H. rewrite H. rewrite <- app_assoc. reflexivity.
    + apply IH in H. exact H.
Qed.

(** X10: only the first three characters of a name are read, so a
    leave-out subject id below -99 or above 999 matches no file: whenever
    [get_image_list] returns for such an id, its test list is empty. *)
Theorem subject_out_of_reach_has_no_test_file (dir : string) (leave_sub : Z)
    (rate : R) (w w' : World) (train_list val_list test_list : list string) :
  (leave_sub < -99 \/ 999 < leave_sub)%Z ->
  get_image_list dir leave_sub rate w = (Ok (train_list, val_list, test_list), w') ->
  test_list = [].
Proof.
  intros Hout. unfold get_image_list, bind, lift.
  destruct (split_by_subject dir leave_sub (os_listdir dir) [] [])
    as [[tv te] | e] eqn:Hsplit; [|discriminate].
  apply split_by_subject_test in Hsplit. simpl in Hsplit.
  destruct (np_random_choice _ _ w) as [[index_val | e] w1]; [|discriminate].
  destruct (split_by_index index_val 0 tv [] []) as [tr va].
  unfold ret. intros H. injection H as _ _ <- _. rewrite Hsplit.
  rewrite (filter_out_of_reach (os_listdir dir) Hout). reflexivity.
Qed.

Lemma three_digits_checked :
  forallb (fun a => forallb (fun b => forallb (fun c =>
    match int_of_string
            (String (ascii_of_nat (48 + a))
               (String (ascii_of_nat (48 + b))
                  (String (ascii_of_nat (48 + c)) EmptyString))) with
    | Ok z => (z =? Z.of_nat (100 * a + 10 * b + c))%Z
    | Raise _ => false
    end) (seq 0 10)) (seq 0 10)) (seq 0 10) = true.
Proof. vm_compute. reflexivity. Qed.

(** X11: a file whose name starts with three decimal digits belongs to the
    subject those digits spell, leading zeros included: it goes to the test
    list exactly when that number is the leave-out subject id. *)
Theorem three_digit_prefix_is_the_subject (a b c : nat) (rest : string)
    (leave_sub : Z) :
  (a < 10)%nat -> (b < 10)%nat -> (c < 10)%nat ->
  in_test leave_sub
    (String (ascii_of_nat (48 + a))
       (String (ascii_of_nat (48 + b))
          (String (ascii_of_nat (48 + c)) rest)))
  = (Z.of_nat (100 * a + 10 * b + c) =? leave_sub)%Z.
Proof.
  intros Ha Hb Hc. unfold in_test.
  change (substring 0 3
            (String (ascii_of_nat (48 + a))
               (String (ascii_of_nat (48 + b))
                  (String (ascii_of_nat (48 + c)) rest))))
    with (String (ascii_of_nat (48 + a))
            (String (ascii_of_nat (48 + b))
               (String (ascii_of_nat (48 + c)) (substring 0 0 rest)))).
  replace (substring 0 0 rest) with EmptyString by (destruct rest; reflexivity).
  pose proof three_digits_checked as Hall.
  rewrite forallb_forall in Hall. specialize (Hall a ltac:(apply in_seq; lia)).
  rewrite forallb_forall in Hall. specialize (Hall b ltac:(apply in_seq; lia)).
  rewrite forallb_forall in Hall. specialize (Hall c ltac:(apply in_seq; lia)).
  destruct (int_of_string _) as [z | e]; [|discriminate Hall].
  apply Z.eqb_eq in Hall. subst z. reflexivity.
Qed.

(** ** Runs that stop early *)

Lemma rsum_abs_nonneg (p : R) (label : list Z) :
  (0 <= rsum (map (fun y => Rabs (p - IZR y)) label))%R.
Proof.
  induction label as [|y ys IH]; simpl; [lra|].
  pose proof (Rabs_pos (p - IZR y)). lra.
Qed.

Lemma abs_errors_nonneg (output : Tensor2) (label : list Z) :
  (0 <= item (abs_errors output label))%R.
Proof.
  unfold abs_errors, item.
  induction (map np_around
               (map (fun row => dot row (arange START_AGE (END_AGE + 1))) output))
    as [|p preds IH]; simpl.
  - lra.
  - pose proof (rsum_abs_nonneg p label). lra.
Qed.

Lemma test_fold_nonneg (m : Model) (loader : list (Batch Image)) :
  forall acc : R, (0 <= acc)%R -> (0 <= fold_left (test_batch m) loader acc)%R.
Proof.
  induction loader as [|sample rest IH]; intros acc Hacc.
  - exact Hacc.
  - simpl. apply IH. unfold test_batch.
    pose proof (abs_errors_nonneg
                  (Softmax (model_call false m (images sample))) (labels sample)).
    lra.
Qed.

(** X14: whatever the network answers and whatever the labels are, the
    mean absolute error that [test] returns, and the one that [evaluate]
    returns, is never negative. *)
Theorem returned_mae_is_never_negative (loader : list (Batch Image)) (m : Model)
    (c1 : MeanVarianceLoss) (c2 : Tensor2 -> list Z -> R) :
  (forall mae_test, test loader m = Ok mae_test -> (0 <= mae_test)%R) /\
  (forall r1 r2 r3 r4 mae,
      evaluate loader m c1 c2 = Ok (r1, r2, r3, r4, mae) -> (0 <= mae)%R).
Proof.
  assert (Hdiv : forall n : nat, (0 <= fold_left (test_batch m) loader 0 / INR (S n))%R).
  { intros n. apply Rmult_le_pos.
    - apply test_fold_nonneg. lra.
    - left. apply Rinv_0_lt_compat. apply lt_0_INR. lia. }
  split.
  - intros mae_test. unfold test. destruct loader as [|sample rest] eqn:E.
    + discriminate.
    + rewrite <- E in *. unfold true_div.
      destruct (List.length loader) as [|n] eqn:Hn; [discriminate|].
      intros H. injection H as <-. apply Hdiv.
  - intros r1 r2 r3 r4 mae H. apply evaluate_inv in H. cbv zeta in H.
    destruct H as (Hne & _ & _ & _ & _ & ->).
    rewrite (evaluate_fold_mae m c1 c2 loader totals_zero). simpl mae.
    destruct (List.length loader) as [|n] eqn:Hn.
    + destruct loader; [contradiction | discriminate].
    + apply Hdiv.
Qed.

(** X15: with a result directory but a file name that carries no readable
    subject id, [main] raises [ValueError] right after the existence check:
    the result directory has been made if it was missing, and nothing else
    has happened. *)
Theorem main_stops_on_an_unreadable_name (args : Args) (rd : string) (w : World) :
  result_directory args = Some rd ->
  ~ Forall well_named (os_listdir (image_directory args)) ->
  main args w =
  (Raise ValueError,
   {| np_random := np_random w;
      effects := effects w ++ (if os_path_exists rd then [] else [Mkdir rd]) |}).
Proof.
  intros Hrd Hbad. rewrite (main_unfold args w Hrd).
  rewrite (@get_image_list_raises (image_directory args) (leave_subject args)
             VALIDATION_RATE (after_mkdir rd w) Hbad).
  unfold after_mkdir. destruct (os_path_exists rd).
  - rewrite app_nil_r. destruct w; reflexivity.
  - reflexivity.
Qed.



End Script.

(** * The script on the small instance *)

Local Abbreviation toy_world :=
  (@Build_World Toy.RandomState Toy.Model 2019%nat []).

Local Abbreviation toy_get_image_list :=
  (@get_image_list Toy.RandomState Toy.draw Toy.os_listdir Toy.Model).

Local Abbreviation toy_initial_state :=
  (initial_state Toy.parameters Toy.fc_parameters Toy.ResNet34 Toy.SGD).

Local Abbreviation toy_main :=
  (@main Toy.RandomState Toy.draw Toy.os_listdir Toy.os_path_exists
     Toy.Image Toy.Model Toy.Optimizer Toy.model_call Toy.parameters
     Toy.fc_parameters Toy.ResNet34 Toy.SGD Toy.scheduler_step
     Toy.backward_step Toy.Dataset Toy.FaceDataset Toy.DataLoader).

Local Abbreviation toy_loaders :=
  (make_loaders Toy.FaceDataset Toy.DataLoader 16
     ["003_0.jpg"; "003_1.jpg"]%string ["003_2.jpg"]%string ["001_a.jpg"]%string).

Local Abbreviation toy_epoch_loop :=
  (@epoch_loop Toy.RandomState Toy.Image Toy.Model Toy.Optimizer Toy.model_call
     Toy.parameters Toy.scheduler_step Toy.backward_step).

Lemma toy_draw_contract : draw_contract Toy.draw.
Proof.
  intros g a k Hle. unfold Toy.draw. simpl. split; [|split].
  - apply seq_NoDup.
  - apply length_seq.
  - apply Forall_forall. intros i Hi. apply in_seq in Hi. lia.
Qed.

Lemma toy_faces_well_named : Forall well_named Toy.faces.
Proof.
  unfold Toy.faces. repeat constructor; eexists; vm_compute; reflexivity.
Qed.

Lemma toy_loaders_accepted : forall n, accepted (train_loader toy_loaders n).
Proof. intros n. repeat constructor. Qed.

Lemma toy_loaders_run :
  exists st w',
    toy_epoch_loop toy_loaders "out"%string 0%nat 11%nat
      (toy_initial_state Toy.args) toy_world = (Ok st, w').
Proof.
  apply (@epoch_loop_returns Toy.RandomState Toy.Image Toy.Model Toy.Optimizer
           Toy.model_call Toy.parameters Toy.scheduler_step Toy.backward_step
           toy_loaders "out"%string toy_loaders_accepted
           ltac:(intros n; discriminate) ltac:(intros n; discriminate)).
Qed.

(** C2 on a fresh command line and the same one with [--resume]. *)
Lemma resume_is_never_read_witness :
  toy_initial_state Toy.args = toy_initial_state Toy.args_resumed /\
  forall w, toy_main Toy.args w = toy_main Toy.args_resumed w.
Proof.
  apply (resume_is_never_read Toy.draw Toy.os_listdir Toy.os_path_exists
           Toy.model_call Toy.parameters Toy.fc_parameters Toy.ResNet34 Toy.SGD
           Toy.scheduler_step Toy.backward_step Toy.FaceDataset Toy.DataLoader
           Toy.args Toy.args_resumed); reflexivity.
Defined.

(** C9 on a command line without [--result_directory]. *)
Lemma main_without_result_directory_witness :
  path_exists Toy.os_path_exists (result_directory Toy.args_no_result_directory)
    toy_world = (Raise TypeError, toy_world) /\
  toy_main Toy.args_no_result_directory toy_world = (Raise TypeError, toy_world).
Proof.
  apply (main_without_result_directory Toy.draw Toy.os_listdir Toy.os_path_exists
           Toy.model_call Toy.parameters Toy.fc_parameters Toy.ResNet34 Toy.SGD
           Toy.scheduler_step Toy.backward_step Toy.FaceDataset Toy.DataLoader
           Toy.args_no_result_directory toy_world).
  reflexivity.
Defined.

(** C6 on a run of eleven epochs: it completes, and every parameter is
    trainable at its end. *)
Lemma freeze_then_unfreeze_once_witness :
  exists st w',
    toy_epoch_loop toy_loaders "out"%string 0%nat 11%nat
      (toy_initial_state Toy.args) toy_world = (Ok st, w') /\
    forall p, In p Toy.parameters -> requires_grad st p = true.
Proof.
  destruct toy_loaders_run as [st [w' Hrun]].
  exists st, w'. split; [exact Hrun|].
  destruct (freeze_then_unfreeze_once Toy.model_call Toy.parameters
              Toy.fc_parameters Toy.ResNet34 Toy.SGD Toy.scheduler_step
              Toy.backward_step Toy.args toy_loaders "out"%string 11%nat
              toy_world Hrun)
    as (_ & _ & Hall & _).
  apply Hall. lia.
Defined.

(** C3 on a run of eleven epochs: its trackers and its saves are those of
    [track] over eleven triples of metrics and model. *)
Lemma best_trackers_follow_the_minimum_witness :
  exists st w' epochs,
    toy_epoch_loop toy_loaders "out"%string 0%nat 11%nat
      (toy_initial_state Toy.args) toy_world = (Ok st, w') /\
    List.length epochs = 11%nat /\
    best st = fst (track "out" 0 epochs best_init) /\
    saves_of (effects w') = snd (track "out" 0 epochs best_init).
Proof.
  destruct toy_loaders_run as [st [w' Hrun]].
  destruct (best_trackers_follow_the_minimum Toy.RandomState Toy.model_call
              Toy.parameters Toy.scheduler_step Toy.backward_step
              "out"%string [])
    as (_ & _ & _ & _ & _ & _ & _ & _ & _ & Hlink).
  destruct (Hlink _ _ _ _ _ _ Hrun) as (epochs & Hlen & _ & Hb & Hs).
  exists st, w', epochs. repeat split; assumption.
Defined.

(** C3 on a first epoch whose validation MAE and loss are NaN: neither
    comparison is won, so both trackers stay at infinity and -1 and nothing
    is saved, although a value has been seen; what the trackers hold is not
    the minimum of the values seen, and the best epoch is no index. *)
Lemma a_nan_metric_never_wins_the_comparison :
  ext_gt PInf NaN = false /\
  fst (track "out" 0 [(NaN, NaN, 0%nat)] best_init) = best_init /\
  snd (track "out" 0 [(NaN, NaN, 0%nat)] best_init) = [] /\
  ~ min_of_all [NaN]
      (best_val_mae (fst (track "out" 0 [(NaN, NaN, 0%nat)] best_init)))
      (best_mae_epoch (fst (track "out" 0 [(NaN, NaN, 0%nat)] best_init))) /\
  ~ min_of_all [NaN]
      (best_val_loss (fst (track "out" 0 [(NaN, NaN, 0%nat)] best_init)))
      (best_loss_epoch (fst (track "out" 0 [(NaN, NaN, 0%nat)] best_init))).
Proof.
  split; [reflexivity|]. split; [reflexivity|]. split; [reflexivity|].
  split; intros (k & Hk & _); cbn in Hk; lia.
Qed.

(** C4 on the directory [Toy.faces], leaving out subject 1. *)
Lemma get_image_list_partitions_witness :
  exists train_list val_list test_list index_val w',
    toy_get_image_list "faces"%string 1%Z VALIDATION_RATE toy_world
    = (Ok (train_list, val_list, test_list), w') /\
    test_list = ["faces/001_a.jpg"]%string /\
    index_val = [0%nat] /\
    List.length val_list = 1%nat /\
    Permutation (train_list ++ val_list ++ test_list)
      (map (path_join "faces") Toy.faces).
Proof.
  destruct (@get_image_list_partitions Toy.RandomState Toy.draw Toy.os_listdir
              Toy.Model "faces"%string 1%Z toy_world
              toy_draw_contract toy_faces_well_named)
    as (train_list & val_list & test_list & index_val & w' & Hrun & _ & Htest
        & Hidx & Hfloor & _ & _ & _ & _ & _ & Hlen & _ & Hperm & _).
  exists train_list, val_list, test_list, index_val, w'.
  split; [exact Hrun|].
  split; [rewrite Htest; vm_compute; reflexivity|].
  split; [rewrite Hidx, Hfloor; reflexivity|].
  split; [rewrite Hlen; reflexivity|].
  exact Hperm.
Defined.

(** C5 on the directory [Toy.faces], from two worlds that share the
    generator state. *)
Lemma split_is_deterministic_witness :
  fst (toy_get_image_list "faces"%string 1%Z VALIDATION_RATE toy_world)
  = fst (toy_get_image_list "faces"%string 1%Z VALIDATION_RATE
           (@Build_World Toy.RandomState Toy.Model 2019%nat [Mkdir "out"%string])) /\
  exists train1 val1 w1' train2 val2 w2',
    toy_get_image_list "faces"%string 1%Z VALIDATION_RATE toy_world
    = (Ok (train1, val1, ["faces/001_a.jpg"]%string), w1') /\
    toy_get_image_list "faces"%string 2%Z VALIDATION_RATE
      (@Build_World Toy.RandomState Toy.Model 2019%nat [Mkdir "out"%string])
    = (Ok (train2, val2, ["faces/002_a.jpg"]%string), w2').
Proof.
  destruct (@split_is_deterministic_and_test_follows_subject
              Toy.RandomState Toy.draw Toy.os_listdir Toy.Model
              "faces"%string 1%Z 2%Z toy_world
              (@Build_World Toy.RandomState Toy.Model 2019%nat [Mkdir "out"%string])
              toy_faces_well_named eq_refl)
    as (Hsame & _ & train1 & val1 & test1 & w1' & train2 & val2 & test2 & w2'
        & H1 & H2 & Ht1 & Ht2 & _).
  split; [exact Hsame|].
  exists train1, val1, w1', train2, val2, w2'.
  split.
  - rewrite H1, Ht1. vm_compute. reflexivity.
  - rewrite H2, Ht2. vm_compute. reflexivity.
Defined.

(** C4, as first stated, fails: a directory that holds a file whose first
    three characters are not an integer ([Thumbs.db] next to [001_a.jpg])
    makes [get_image_list] raise [ValueError]; no list is returned. *)
Lemma get_image_list_raises_on_a_stray_file :
  @get_image_list Toy.RandomState Toy.draw Toy.os_listdir_stray Toy.Model
    "faces"%string 1%Z VALIDATION_RATE toy_world
  = (Raise ValueError, toy_world).
Proof.
  apply get_image_list_raises.
  intros Hall. unfold Toy.os_listdir_stray in Hall.
  inversion Hall as [|fn names _ Hrest]; subst.
  inversion Hrest as [|fn' names' [subject Hbad] _]; subst.
  vm_compute in Hbad. discriminate Hbad.
Qed.

Ltac moved_file H1 H2 fn :=
  vm_compute in H1, H2;
  eexists; eexists; eexists; eexists; exists fn;
  split; [exact H1|];
  split; [exact H2|];
  split; [unfold Toy.faces; simpl; tauto|];
  split; [vm_compute; reflexivity|];
  split; [vm_compute; reflexivity|];
  let Ha := fresh "Ha" in
  let Hb := fresh "Hb" in
  intros [_ [[Ha Hb] _]];
  first
    [ specialize (Ha (or_introl eq_refl)); destruct Ha as [Ha | []];
      discriminate Ha
    | specialize (Hb (or_introl eq_refl)); destruct Hb as [Hb | []];
      discriminate Hb ].

(** Whatever index the generator draws, leaving out subject 2 instead of
    subject 1 moves a file of subject 3 between the training and the
    validation list. *)
Lemma every_draw_moves_another_file (RandomState Model : Type)
    (draw : RandomState -> nat -> nat -> list nat * RandomState)
    (w : World RandomState Model) :
  draw_contract draw ->
  exists r1 w1 r2 w2 fn,
    get_image_list draw Toy.os_listdir "faces"%string 1%Z VALIDATION_RATE w
    = (Ok r1, w1) /\
    get_image_list draw Toy.os_listdir "faces"%string 2%Z VALIDATION_RATE w
    = (Ok r2, w2) /\
    In fn Toy.faces /\
    in_test 1 fn = false /\
    in_test 2 fn = false /\
    ~ same_sets r1 r2 (path_join "faces" fn).
Proof.
  intros Hdraw.
  pose proof (@get_image_list_run RandomState draw Toy.os_listdir Model
                "faces"%string 1%Z w toy_faces_well_named) as H1.
  pose proof (@get_image_list_run RandomState draw Toy.os_listdir Model
                "faces"%string 2%Z w toy_faces_well_named) as H2.
  cbv zeta in H1, H2.
  remember (get_image_list draw Toy.os_listdir "faces"%string 1%Z
              VALIDATION_RATE w) as run1 eqn:E1.
  remember (get_image_list draw Toy.os_listdir "faces"%string 2%Z
              VALIDATION_RATE w) as run2 eqn:E2.
  let p := eval vm_compute in
    (map (path_join "faces") (filter (in_pool 1) (Toy.os_listdir "faces"))) in
  change (map (path_join "faces") (filter (in_pool 1) (Toy.os_listdir "faces")))
    with p in H1.
  let p := eval vm_compute in
    (map (path_join "faces") (filter (in_pool 2) (Toy.os_listdir "faces"))) in
  change (map (path_join "faces") (filter (in_pool 2) (Toy.os_listdir "faces")))
    with p in H2.
  let t := eval vm_compute in
    (map (path_join "faces") (filter (in_test 1) (Toy.os_listdir "faces"))) in
  change (map (path_join "faces") (filter (in_test 1) (Toy.os_listdir "faces")))
    with t in H1.
  let t := eval vm_compute in
    (map (path_join "faces") (filter (in_test 2) (Toy.os_listdir "faces"))) in
  change (map (path_join "faces") (filter (in_test 2) (Toy.os_listdir "faces")))
    with t in H2.
  cbn [List.length] in H1, H2.
  change (10 / 10)%nat with 1%nat in H1, H2.
  destruct (Hdraw (np_random w) 10%nat 1%nat ltac:(lia)) as (_ & Hlen & Hlt).
  destruct (draw (np_random w) 10%nat 1%nat) as [index_val g].
  cbn [fst snd] in *.
  destruct index_val as [|i [|i' rest]]; try discriminate Hlen.
  apply Forall_inv in Hlt. clear Hlen.
  destruct i as [|i]; [moved_file H1 H2 "003_0.jpg"%string|].
  destruct i as [|i]; [moved_file H1 H2 "003_1.jpg"%string|].
  destruct i as [|i]; [moved_file H1 H2 "003_2.jpg"%string|].
  destruct i as [|i]; [moved_file H1 H2 "003_3.jpg"%string|].
  destruct i as [|i]; [moved_file H1 H2 "003_4.jpg"%string|].
  destruct i as [|i]; [moved_file H1 H2 "003_5.jpg"%string|].
  destruct i as [|i]; [moved_file H1 H2 "003_6.jpg"%string|].
  destruct i as [|i]; [moved_file H1 H2 "003_7.jpg"%string|].
  destruct i as [|i]; [moved_file H1 H2 "003_8.jpg"%string|].
  destruct i as [|i]; [moved_file H1 H2 "003_8.jpg"%string|].
  lia.
Qed.

(** C5, as first stated, fails: on the directory [Toy.faces], from the same
    generator state, leaving out subject 1 puts [003_0.jpg] in the
    validation list and leaving out subject 2 puts it in the training list,
    although the file belongs to subject 3. *)
Lemma changing_the_subject_moves_another_file :
  toy_get_image_list "faces"%string 1%Z VALIDATION_RATE toy_world
  = (Ok (["faces/003_1.jpg"; "faces/003_2.jpg"; "faces/003_3.jpg";
          "faces/003_4.jpg"; "faces/003_5.jpg"; "faces/003_6.jpg";
          "faces/003_7.jpg"; "faces/003_8.jpg"; "faces/002_a.jpg"]%string,
         ["faces/003_0.jpg"]%string,
         ["faces/001_a.jpg"]%string),
     @Build_World Toy.RandomState Toy.Model 2020%nat []) /\
  toy_get_image_list "faces"%string 2%Z VALIDATION_RATE toy_world
  = (Ok (["faces/003_0.jpg"; "faces/003_1.jpg"; "faces/003_2.jpg";
          "faces/003_3.jpg"; "faces/003_4.jpg"; "faces/003_5.jpg";
          "faces/003_6.jpg"; "faces/003_7.jpg"; "faces/003_8.jpg"]%string,
         ["faces/001_a.jpg"]%string,
         ["faces/002_a.jpg"]%string),
     @Build_World Toy.RandomState Toy.Model 2020%nat []) /\
  in_test 1 "003_0.jpg" = false /\
  in_test 2 "003_0.jpg" = false /\
  ~ (In "faces/003_0.jpg"%string ["faces/003_0.jpg"]%string <->
     In "faces/003_0.jpg"%string ["faces/001_a.jpg"]%string).
Proof.
  split; [|split; [|split; [|split]]].
  - rewrite (@get_image_list_run Toy.RandomState Toy.draw Toy.os_listdir
               Toy.Model "faces"%string 1%Z toy_world toy_faces_well_named).
    vm_compute. reflexivity.
  - rewrite (@get_image_list_run Toy.RandomState Toy.draw Toy.os_listdir
               Toy.Model "faces"%string 2%Z toy_world toy_faces_well_named).
    vm_compute. reflexivity.
  - vm_compute. reflexivity.
  - vm_compute. reflexivity.
  - intros [H _]. specialize (H (or_introl eq_refl)).
    destruct H as [H | []]. discriminate H.
Qed.

(** * The further properties on the small instance *)




Local Abbreviation toy_epoch_body :=
  (@epoch_body Toy.RandomState Toy.Image Toy.Model Toy.Optimizer Toy.model_call
     Toy.parameters Toy.scheduler_step Toy.backward_step).

(** X4 on a loader of one batch of two faces. *)
Lemma train_logs_every_batch_witness :
  exists l' line,
    train Toy.model_call Toy.backward_step
      (Toy.DataLoader
         (Toy.FaceDataset ["faces/003_0.jpg"; "faces/003_1.jpg"]%string
            transforms_train) 16 true 0)
      (learner (toy_initial_state Toy.args)) (fun _ => true)
      main_criterion1 main_criterion2 0 "out" toy_world
    = (Ok l',
       @Build_World Toy.RandomState Toy.Model 2019%nat
         (logged Toy.Model "out" [line])).
Proof.
  destruct (@train_logs_every_batch Toy.RandomState Toy.Image Toy.Model
              Toy.Optimizer Toy.model_call Toy.backward_step
              (Toy.DataLoader
                 (Toy.FaceDataset ["faces/003_0.jpg"; "faces/003_1.jpg"]%string
                    transforms_train) 16 true 0)
              (learner (toy_initial_state Toy.args)) (fun _ => true)
              main_criterion1 main_criterion2 0%Z "out"%string toy_world)
    as (Hret & _ & _).
  destruct Hret as (l' & lines & Hrun & Hlen & _).
  { repeat constructor. }
  destruct lines as [|line [|line' lines]]; try discriminate Hlen.
  exists l', line. exact Hrun.
Defined.

(** X5 on a split whose validation list is empty. *)
Lemma epoch_fails_after_training_on_an_empty_loader_witness :
  exists lines,
    toy_epoch_body
      (make_loaders Toy.FaceDataset Toy.DataLoader 16
         ["faces/003_0.jpg"; "faces/003_1.jpg"]%string [] ["faces/001_a.jpg"]%string)
      "out"%string 0%nat (toy_initial_state Toy.args) toy_world
    = (Raise ZeroDivisionError,
       @Build_World Toy.RandomState Toy.Model 2019%nat
         (logged Toy.Model "out" lines)) /\
    List.length lines = 1%nat.
Proof.
  apply (@epoch_fails_after_training_on_an_empty_loader
           Toy.RandomState Toy.Image Toy.Model Toy.Optimizer Toy.model_call
           Toy.parameters Toy.scheduler_step Toy.backward_step
           (make_loaders Toy.FaceDataset Toy.DataLoader 16
              ["faces/003_0.jpg"; "faces/003_1.jpg"]%string []
              ["faces/001_a.jpg"]%string)
           "out"%string 0%nat (toy_initial_state Toy.args) toy_world).
  - repeat constructor.
  - left. reflexivity.
Defined.

(** X6 on a run of eleven epochs. *)
Lemma epoch_loop_completes_on_usable_loaders_witness :
  exists st w',
    toy_epoch_loop toy_loaders "out"%string 0%nat 11%nat
      (toy_initial_state Toy.args) toy_world = (Ok st, w') /\
    printed_epochs (effects w') = map Z.of_nat (seq 0 11).
Proof.
  destruct (@epoch_loop_completes_on_usable_loaders Toy.RandomState Toy.Image
              Toy.Model Toy.Optimizer Toy.model_call Toy.parameters
              Toy.scheduler_step Toy.backward_step toy_loaders "out"%string
              11%nat (toy_initial_state Toy.args) toy_world)
    as [[_ Hret] Heff].
  destruct Hret as (st & w' & Hrun).
  { intros n _. split; [apply toy_loaders_accepted|]. split; discriminate. }
  destruct (Heff st w' Hrun) as (_ & es & He & Hp).
  exists st, w'. split; [exact Hrun|]. rewrite He. exact Hp.
Defined.

(** X7 on the directory [Toy.faces]. *)
Lemma main_own_writes_target_the_result_directory_witness :
  exists es,
    effects (snd (toy_main Toy.args toy_world)) = es /\
    Forall (writes_inside "out") es.
Proof.
  exact (main_own_writes_target_the_result_directory Toy.draw Toy.os_listdir
           Toy.os_path_exists Toy.model_call Toy.parameters Toy.fc_parameters
           Toy.ResNet34 Toy.SGD Toy.scheduler_step Toy.backward_step
           Toy.FaceDataset Toy.DataLoader Toy.args toy_world eq_refl).
Defined.

(** X8 on the directory [Toy.faces], leaving out subject 3: two files are
    left. *)
Lemma small_pool_has_no_validation_file_witness :
  exists g,
    toy_get_image_list "faces"%string 3%Z VALIDATION_RATE toy_world
    = (Ok (map (path_join "faces") (filter (in_pool 3) Toy.faces),
           [],
           map (path_join "faces") (filter (in_test 3) Toy.faces)),
       @Build_World Toy.RandomState Toy.Model g []).
Proof.
  apply (@small_pool_has_no_validation_file Toy.RandomState Toy.draw
           Toy.os_listdir Toy.Model "faces"%string 3%Z toy_world
           toy_draw_contract toy_faces_well_named).
  vm_compute. lia.
Defined.

(** X10 on the directory [Toy.faces], leaving out subject 1000. *)
Lemma subject_out_of_reach_has_no_test_file_witness :
  exists train_list val_list w',
    toy_get_image_list "faces"%string 1000%Z VALIDATION_RATE toy_world
    = (Ok (train_list, val_list, []), w').
Proof.
  pose proof (@get_image_list_run Toy.RandomState Toy.draw Toy.os_listdir
                Toy.Model "faces"%string 1000%Z toy_world toy_faces_well_named)
    as Hrun.
  cbv zeta in Hrun.
  pose proof (@subject_out_of_reach_has_no_test_file Toy.RandomState Toy.draw
                Toy.os_listdir Toy.Model "faces"%string 1000%Z VALIDATION_RATE
                toy_world _ _ _ _ (or_intror eq_refl) Hrun) as Hnone.
  rewrite Hnone in Hrun. do 3 eexists. exact Hrun.
Defined.

(** X11 on the name [007_x.jpg]. *)
Lemma three_digit_prefix_is_the_subject_witness :
  in_test 7 "007_x.jpg"%string = true /\ in_test 70 "007_x.jpg"%string = false.
Proof.
  split.
  - exact (@three_digit_prefix_is_the_subject 0%nat 0%nat 7%nat "_x.jpg"%string 7%Z
             ltac:(lia) ltac:(lia) ltac:(lia)).
  - exact (@three_digit_prefix_is_the_subject 0%nat 0%nat 7%nat "_x.jpg"%string 70%Z
             ltac:(lia) ltac:(lia) ltac:(lia)).
Defined.


Lemma toy_stray_unreadable : ~ Forall well_named (Toy.os_listdir_stray "faces").
Proof.
  intros Hall. unfold Toy.os_listdir_stray in Hall.
  inversion Hall as [|fn names _ Hrest]; subst.
  inversion Hrest as [|fn' names' [subject Hbad] _]; subst.
  vm_compute in Hbad. discriminate Hbad.
Qed.

(** X15 on a directory that holds [Thumbs.db]. *)
Lemma main_stops_on_an_unreadable_name_witness :
  @main Toy.RandomState Toy.draw Toy.os_listdir_stray Toy.os_path_exists
    Toy.Image Toy.Model Toy.Optimizer Toy.model_call Toy.parameters
    Toy.fc_parameters Toy.ResNet34 Toy.SGD Toy.scheduler_step
    Toy.backward_step Toy.Dataset Toy.FaceDataset Toy.DataLoader
    Toy.args toy_world
  = (Raise ValueError,
     @Build_World Toy.RandomState Toy.Model 2019%nat [Mkdir "out"%string]).
Proof.
  exact (main_stops_on_an_unreadable_name Toy.draw Toy.os_listdir_stray
           Toy.os_path_exists Toy.model_call Toy.parameters Toy.fc_parameters
           Toy.ResNet34 Toy.SGD Toy.scheduler_step Toy.backward_step
           Toy.FaceDataset Toy.DataLoader Toy.args toy_world
           (rd := "out"%string) eq_refl toy_stray_unreadable).
Defined.

